(** * KMCLib: the lattice map (c++/src/latticemap.cpp)

    A shallow embedding of [LatticeMap] and of its four operations
    ([indicesFromCell], [indexToCell], [neighbourIndices],
    [supersetNeighbourIndices]) together with the properties of the
    addressing scheme.

    Conventions of the embedding:
    - a C++ [int] is a [Z] kept in the 32 bit two's complement range by
      [Int.wrap] after every arithmetic operation;
    - a [std::vector<int>] is a [list Z], a [std::vector<bool>] a
      [list bool]; indexing outside the vector is a failure;
    - the file-level vector [tmp_cell_indices__] is a store threaded through
      every operation that touches it;
    - [while] and [for] loops whose termination depends on the data run on
      fuel; running out of fuel is a failure of its own. *)

From Stdlib Require Import ZArith List Lia Bool Sorted.
Import ListNotations.
Local Open Scope Z_scope.

(** ** Machine integers *)

Module Int.

Definition min_int : Z := -2147483648.
Definition max_int : Z := 2147483647.
Definition modulus : Z := 4294967296.

(** Reduction of a mathematical integer into the range of [int]. *)
Definition wrap (z : Z) : Z := (z - min_int) mod modulus + min_int.

Definition add (a b : Z) : Z := wrap (a + b).
Definition sub (a b : Z) : Z := wrap (a - b).
Definition mul (a b : Z) : Z := wrap (a * b).
(** C++ division truncates towards zero. *)
Definition quot (a b : Z) : Z := wrap (Z.quot a b).

Definition in_range (z : Z) : Prop := min_int <= z <= max_int.

Definition in_rangeb (z : Z) : bool := (min_int <=? z) && (z <=? max_int).

End Int.

(** ** Failures *)

(** The exceptions of <stdexcept> that matter here.  [std_length_error] is
    what [std::vector] throws when asked for more than [max_size()]
    elements; [std_invalid_argument] and [std_out_of_range] are the classes
    an argument check would throw.  Nothing in latticemap.cpp throws on its
    own: the only exception that can escape comes from [std::vector]. *)
Inductive exception : Type :=
| std_length_error
| std_invalid_argument
| std_out_of_range.

Inductive failure : Type :=
| Throw (e : exception)
| DivisionByZero      (* integer division by zero *)
| OutOfBounds         (* access outside a vector or a buffer *)
| BadConversion       (* a double outside the range of int converted to int *)
| OutOfFuel.          (* the loop did not finish within the fuel given *)

Inductive outcome (A : Type) : Type :=
| Ok (a : A)
| Fail (f : failure).

Arguments Ok {A} a.
Arguments Fail {A} f.

Definition bind {A B : Type} (o : outcome A) (k : A -> outcome B) : outcome B :=
  match o with
  | Ok a => k a
  | Fail f => Fail f
  end.

Declare Scope outcome_scope.
Delimit Scope outcome_scope with outcome.
Notation "x <- o ;; k" := (bind o (fun x => k))
  (at level 61, o at next level, right associativity) : outcome_scope.
Notation "' p <- o ;; k" := (bind o (fun p => k))
  (at level 61, p pattern, o at next level, right associativity) : outcome_scope.
Local Open Scope outcome_scope.

(** ** Vectors *)

(** [v[i]] *)
Definition vector_get {A : Type} (v : list A) (i : Z) : outcome A :=
  if i <? 0 then Fail OutOfBounds
  else match nth_error v (Z.to_nat i) with
       | Some x => Ok x
       | None => Fail OutOfBounds
       end.

Fixpoint replace_nth (n : nat) (x : Z) (v : list Z) : option (list Z) :=
  match v, n with
  | [], _ => None
  | _ :: t, O => Some (x :: t)
  | h :: t, S n' => option_map (cons h) (replace_nth n' x t)
  end.

(** [v[i] = x] *)
Definition vector_set (v : list Z) (i : Z) (x : Z) : outcome (list Z) :=
  if i <? 0 then Fail OutOfBounds
  else match replace_nth (Z.to_nat i) x v with
       | Some v' => Ok v'
       | None => Fail OutOfBounds
       end.

(** [v.resize(n)] for an [int n]: the conversion of a negative [n] to
    [size_t] is far above [max_size()], and the vector throws. *)
Definition vector_resize (v : list Z) (n : Z) : outcome (list Z) :=
  if n <? 0 then Fail (Throw std_length_error)
  else Ok (firstn (Z.to_nat n) v ++ repeat 0 (Z.to_nat n - length v)).

(** [std::vector<int> v(n)] for an [int n]. *)
Definition vector_new (n : Z) : outcome (list Z) :=
  if n <? 0 then Fail (Throw std_length_error)
  else Ok (repeat 0 (Z.to_nat n)).

(** [std::memcpy(dst + off, src, n * sizeof(int))] *)
Definition memcpy (dst : list Z) (off : Z) (src : list Z) (n : Z) : outcome (list Z) :=
  if (n <? 0) || (off <? 0) then Fail OutOfBounds
  else if (Z.of_nat (length src) <? n) || (Z.of_nat (length dst) <? off + n)
  then Fail OutOfBounds
  else Ok (firstn (Z.to_nat off) dst ++ firstn (Z.to_nat n) src
           ++ skipn (Z.to_nat (off + n)) dst).

(** ** Loops *)

(** [while (cond) body] on a state [S]. *)
Fixpoint while {S : Type} (fuel : nat) (cond : S -> bool)
         (body : S -> outcome S) (s : S) : outcome S :=
  match fuel with
  | O => Fail OutOfFuel
  | Datatypes.S fuel' =>
      if cond s then s' <- body s ;; while fuel' cond body s'
      else Ok s
  end.

(** [for (int i = lo; i <= hi; ++i) body] *)
Definition for_le {S : Type} (fuel : nat) (lo hi : Z)
           (body : Z -> S -> outcome S) (s : S) : outcome S :=
  '(_, s') <- while fuel (fun st => fst st <=? hi)
                   (fun st => s1 <- body (fst st) (snd st) ;; Ok (Int.add (fst st) 1, s1))
                   (lo, s) ;;
  Ok s'.

(** ** The lattice map *)

Record LatticeMap : Type := {
  n_basis_ : Z;
  repetitions_ : list Z;
  periodic_ : list bool
}.

(** The content of the file-level vector [tmp_cell_indices__]. *)
Definition Buffer : Type := list Z.

(** Computations that read and write [tmp_cell_indices__]. *)
Definition M (A : Type) : Type := Buffer -> outcome (A * Buffer).

(** A [const std::vector<int> &]: the only vector a reference is ever taken
    of is [tmp_cell_indices__], and the reference reads whatever the vector
    holds when it is used. *)
Inductive vector_ref : Type := tmp_cell_indices_ref.

Definition deref (r : vector_ref) (g : Buffer) : list Z :=
  match r with tmp_cell_indices_ref => g end.

(** [LatticeMap::LatticeMap] *)
Definition LatticeMap_ctor (n_basis : Z) (repetitions : list Z)
           (periodic : list bool) : M LatticeMap :=
  fun g =>
    g' <- vector_resize g n_basis ;;
    Ok ({| n_basis_ := n_basis; repetitions_ := repetitions; periodic_ := periodic |}, g').

(** The loop of [indicesFromCell]: [l] runs from its start value up to
    [n_basis_], which is an [int], so [++l] cannot overflow and the loop
    makes [count] iterations. *)
Fixpoint fill_cell_indices (count : nat) (l tmp3 : Z) (g : Buffer) : outcome Buffer :=
  match count with
  | O => Ok g
  | Datatypes.S count' =>
      g' <- vector_set g l (Int.add tmp3 l) ;;
      fill_cell_indices count' (l + 1) tmp3 g'
  end.

(** [LatticeMap::indicesFromCell] *)
Definition indicesFromCell (m : LatticeMap) (i j k : Z) : M vector_ref :=
  fun g =>
    r1 <- vector_get (repetitions_ m) 1 ;;
    let tmp1 := Int.add (Int.mul i r1) j in
    r2 <- vector_get (repetitions_ m) 2 ;;
    let tmp2 := Int.add (Int.mul tmp1 r2) k in
    let tmp3 := Int.mul tmp2 (n_basis_ m) in
    g' <- fill_cell_indices (Z.to_nat (n_basis_ m)) 0 tmp3 g ;;
    Ok (tmp_cell_indices_ref, g').

(** [index / n_basis_] *)
Definition int_div (a b : Z) : outcome Z :=
  if b =? 0 then Fail DivisionByZero else Ok (Int.quot a b).

(** The two loops [while (cmp < idx) { ++cell; cmp += factor; }]. *)
Definition scan_cell (fuel : nat) (idx factor : Z) : outcome (Z * Z) :=
  while fuel (fun st => snd st <? idx)
        (fun st => Ok (Int.add (fst st) 1, Int.add (snd st) factor))
        (0, factor).

(** [LatticeMap::indexToCell]; the three reference arguments are returned
    as a triple. *)
Definition indexToCell (fuel : nat) (m : LatticeMap) (index : Z) : outcome (Z * Z * Z) :=
  q <- int_div index (n_basis_ m) ;;
  let idx := Int.add q 1 in
  r1 <- vector_get (repetitions_ m) 1 ;;
  r2 <- vector_get (repetitions_ m) 2 ;;
  let factor_i := Int.mul r1 r2 in
  '(cell_i, _) <- scan_cell fuel idx factor_i ;;
  let ci := Int.mul cell_i factor_i in
  factor_j <- vector_get (repetitions_ m) 2 ;;
  let idx_j := Int.sub idx ci in
  '(cell_j, _) <- scan_cell fuel idx_j factor_j ;;
  let cij := Int.add ci (Int.mul cell_j factor_j) in
  let idx_k := Int.sub idx cij in
  cell_k <- while fuel (fun c => c <? idx_k) (fun c => Ok (Int.add c 1)) 1 ;;
  Ok (cell_i, cell_j, Int.sub cell_k 1).

(** The block repeated for each axis in [neighbourIndices]: the candidate
    coordinate [x] on axis [a] is moved by one repetition count when the
    axis is periodic, and the result says whether the loop body goes on
    ([Some ii]) or skips the candidate ([None]). *)
Definition axis_candidate (m : LatticeMap) (a : Z) (x : Z) : outcome (option Z) :=
  let ii := x in
  p <- vector_get (periodic_ m) a ;;
  ii <- (if p : bool then
           if ii <? 0 then
             r <- vector_get (repetitions_ m) a ;; Ok (Int.add ii r)
           else
             r <- vector_get (repetitions_ m) a ;;
             if ii >=? r then
               r' <- vector_get (repetitions_ m) a ;; Ok (Int.sub ii r')
             else Ok ii
         else Ok ii) ;;
  if ii >=? 0 then
    r <- vector_get (repetitions_ m) a ;;
    Ok (if ii <? r then Some ii else None)
  else Ok None.

(** The local variables of [neighbourIndices] that the loops update;
    [neighbours_ptr] is kept as its offset from [&neighbours[0]]. *)
Record locals : Type := {
  neighbours : list Z;
  neighbours_ptr : Z;
  counter : Z
}.

(** The innermost block: copy the indices of cell [(ii, jj, kk)]. *)
Definition copy_cell (m : LatticeMap) (ii jj kk : Z)
           (st : locals * Buffer) : outcome (locals * Buffer) :=
  '(indices, g) <- indicesFromCell m ii jj kk (snd st) ;;
  let size := n_basis_ m in
  nb <- memcpy (neighbours (fst st)) (neighbours_ptr (fst st)) (deref indices g) size ;;
  Ok ({| neighbours := nb;
         neighbours_ptr := neighbours_ptr (fst st) + n_basis_ m;
         counter := Int.add (counter (fst st)) (n_basis_ m) |}, g).

(** [std::pow(base, 3) * n_basis_] converted to [int]: the double is exact
    whenever the product fits an [int], and the conversion is undefined
    otherwise. *)
Definition pow3_times (base n : Z) : outcome Z :=
  let v := base ^ 3 * n in
  if Int.in_rangeb v then Ok v else Fail BadConversion.

(** [LatticeMap::neighbourIndices] *)
Definition neighbourIndices (fuel : nat) (m : LatticeMap) (index shells : Z)
  : M (list Z) :=
  fun g =>
    '(cell_i, cell_j, cell_k) <- indexToCell fuel m index ;;
    n_neighbours <- pow3_times (Int.add (Int.mul 2 shells) 1) (n_basis_ m) ;;
    nb <- vector_new n_neighbours ;;
    let st0 := ({| neighbours := nb; neighbours_ptr := 0; counter := 0 |}, g) in
    st <- for_le fuel (Int.sub cell_i shells) (Int.add cell_i shells)
            (fun i st =>
               ci <- axis_candidate m 0 i ;;
               match ci with
               | None => Ok st
               | Some ii =>
                   for_le fuel (Int.sub cell_j shells) (Int.add cell_j shells)
                     (fun j st =>
                        cj <- axis_candidate m 1 j ;;
                        match cj with
                        | None => Ok st
                        | Some jj =>
                            for_le fuel (Int.sub cell_k shells) (Int.add cell_k shells)
                              (fun k st =>
                                 ck <- axis_candidate m 2 k ;;
                                 match ck with
                                 | None => Ok st
                                 | Some kk => copy_cell m ii jj kk st
                                 end) st
                        end) st
               end) st0 ;;
    r <- vector_resize (neighbours (fst st)) (counter (fst st)) ;;
    Ok (r, snd st).

(** Modelled from the spec: the default value of the [shells] argument of
    [neighbourIndices], declared in latticemap.h, which is not part of the
    sources at hand ([neighbourIndices(index, shells = 1)]). *)
Definition default_shells : Z := 1.

(** [std::sort] on a vector of [int]: the ascending arrangement of its
    elements. *)
Fixpoint insert_sorted (x : Z) (l : list Z) : list Z :=
  match l with
  | [] => [x]
  | y :: t => if x <=? y then x :: l else y :: insert_sorted x t
  end.

Fixpoint std_sort (l : list Z) : list Z :=
  match l with
  | [] => []
  | x :: t => insert_sorted x (std_sort t)
  end.

(** The range [std::unique] keeps: one element of every run of equal
    neighbours. *)
Fixpoint unique_run (l : list Z) : list Z :=
  match l with
  | [] => []
  | x :: t =>
      match t with
      | [] => [x]
      | y :: _ => if x =? y then unique_run t else x :: unique_run t
      end
  end.

(** [std::unique(v.begin(), v.end())]: the kept elements are moved to the
    front, the positions behind them keep what they held, and the new end
    is returned as its distance from [v.begin()]. *)
Definition std_unique (v : list Z) : list Z * Z :=
  let u := unique_run v in
  (u ++ skipn (length u) v, Z.of_nat (length u)).

(** The inner loop of [supersetNeighbourIndices]. *)
Definition push_back_all (superset neighbours : list Z) : list Z :=
  fold_left (fun acc x => acc ++ [x]) neighbours superset.

(** The outer loop of [supersetNeighbourIndices]. *)
Fixpoint collect_neighbours (fuel : nat) (m : LatticeMap) (indices : list Z)
         (superset : list Z) : M (list Z) :=
  fun g =>
    match indices with
    | [] => Ok (superset, g)
    | index :: rest =>
        '(nbs, g1) <- neighbourIndices fuel m index default_shells g ;;
        collect_neighbours fuel m rest (push_back_all superset nbs) g1
    end.

(** [LatticeMap::supersetNeighbourIndices] *)
Definition supersetNeighbourIndices (fuel : nat) (m : LatticeMap)
           (indices : list Z) : M (list Z) :=
  fun g =>
    '(superset, g1) <- collect_neighbours fuel m indices [] g ;;
    let sorted := std_sort superset in
    let '(compacted, new_end) := std_unique sorted in
    r <- vector_resize compacted new_end ;;
    Ok (r, g1).

(** ** Quantities of the statements *)

(** The [n] consecutive integers from [lo]. *)
Definition zrange (lo : Z) (n : nat) : list Z :=
  map (fun k => lo + Z.of_nat k) (seq 0 n).

(** A loop body run over a list of values of the loop variable. *)
Fixpoint foldM {S : Type} (body : Z -> S -> outcome S) (xs : list Z) (s : S)
  : outcome S :=
  match xs with
  | [] => Ok s
  | x :: t => s' <- body x s ;; foldM body t s'
  end.

(** The mapping law: linear number of a cell and flat indices of its sites. *)
Definition cell_linear (Rb Rc i j k : Z) : Z := (i * Rb + j) * Rc + k.

Definition cell_sites (nb Rb Rc i j k : Z) : list Z :=
  map (fun l => cell_linear Rb Rc i j k * nb + l) (zrange 0 (Z.to_nat nb)).

(** The direct decode, in the words of the specification: integer division
    of the index by the basis count, then division and remainder by the
    repetition counts. *)
Definition direct_decode (nb Rb Rc index : Z) : Z * Z * Z :=
  let cellLinear := index / nb in
  (cellLinear / (Rb * Rc), (cellLinear / Rc) mod Rb, cellLinear mod Rc).

(** A map as the simulation builds it: three positive repetition counts,
    three periodicity flags, a positive basis count, and a number of sites
    that an [int] can hold. *)
Record valid_map (m : LatticeMap) (Ra Rb Rc : Z) : Prop := {
  valid_repetitions : repetitions_ m = [Ra; Rb; Rc];
  valid_periodic : length (periodic_ m) = 3%nat;
  valid_basis : 0 < n_basis_ m;
  valid_Ra : 0 < Ra;
  valid_Rb : 0 < Rb;
  valid_Rc : 0 < Rc;
  valid_sites : Ra * Rb * Rc * n_basis_ m <= Int.max_int
}.

(** [tmp_cell_indices__] has the size the constructor of [m] gave it. *)
Definition buffer_ready (m : LatticeMap) (g : Buffer) : Prop :=
  length g = Z.to_nat (n_basis_ m).

(** Fuel that lets the loops of [indexToCell] and of [neighbourIndices] with
    shell radius [s] finish. *)
Definition enough_fuel (Ra Rb Rc s : Z) (fuel : nat) : Prop :=
  Ra <= Z.of_nat fuel /\ Rb <= Z.of_nat fuel /\ Rc <= Z.of_nat fuel
  /\ 2 * s + 1 < Z.of_nat fuel.

(** The flag of axis [a]. *)
Definition periodic_at (m : LatticeMap) (a : nat) : bool := nth a (periodic_ m) false.

(** What [axis_candidate] computes on an axis with flag [p] and repetition
    count [R] when no addition overflows. *)
Definition axis_cell (p : bool) (R x : Z) : option Z :=
  let ii := if p then (if x <? 0 then x + R else if x >=? R then x - R else x) else x in
  if (ii >=? 0) && (ii <? R) then Some ii else None.

(** The candidate coordinates of one axis: [c - s], ..., [c + s]. *)
Definition shell_range (c s : Z) : list Z := zrange (c - s) (Z.to_nat (2 * s + 1)).

(** The sites that the three nested loops of [neighbourIndices] emit around
    [cell], in the order of the loops. *)
Definition neighbour_sites (nb Ra Rb Rc : Z) (pa pb pc : bool) (s : Z)
           (cell : Z * Z * Z) : list Z :=
  let '(ci, cj, ck) := cell in
  flat_map (fun i =>
    match axis_cell pa Ra i with
    | None => []
    | Some ii =>
        flat_map (fun j =>
          match axis_cell pb Rb j with
          | None => []
          | Some jj =>
              flat_map (fun k =>
                match axis_cell pc Rc k with
                | None => []
                | Some kk => cell_sites nb Rb Rc ii jj kk
                end) (shell_range ck s)
          end) (shell_range cj s)
    end) (shell_range ci s).

(** The sizes met with shell radius [s] fit an [int]. *)
Definition shell_fits (nb Ra Rb Rc s : Z) : Prop :=
  0 <= s /\ Ra + s <= Int.max_int /\ Rb + s <= Int.max_int /\ Rc + s <= Int.max_int
  /\ (2 * s + 1) ^ 3 * nb <= Int.max_int.

(** The state of the loops of [neighbourIndices] after the sites [W] have
    been copied into a result vector of [cap] entries. *)
Definition written (m : LatticeMap) (cap : Z) (W : list Z)
           (st : locals * Buffer) : Prop :=
  neighbours (fst st) = W ++ repeat 0 (Z.to_nat cap - length W)
  /\ neighbours_ptr (fst st) = Z.of_nat (length W)
  /\ counter (fst st) = Z.of_nat (length W)
  /\ Z.of_nat (length W) <= cap
  /\ buffer_ready m (snd st).

(** Maps used as concrete instances. *)
Definition lattice_2x3x4 : LatticeMap :=
  {| n_basis_ := 2; repetitions_ := [2; 3; 4]; periodic_ := [false; true; false] |}.

Definition periodic_point : LatticeMap :=
  {| n_basis_ := 1; repetitions_ := [1; 1; 1]; periodic_ := [true; true; true] |}.

Definition open_4x4x4 : LatticeMap :=
  {| n_basis_ := 1; repetitions_ := [4; 4; 4]; periodic_ := [false; false; false] |}.

Definition ring_3 : LatticeMap :=
  {| n_basis_ := 1; repetitions_ := [3; 1; 1]; periodic_ := [true; false; false] |}.

(** Two calls of [indicesFromCell] in a row; the reference returned by the
    first call is read once before and once after the second call. *)
Definition read_before_and_after (m : LatticeMap) (c1 c2 : Z * Z * Z)
  : M (list Z * list Z) :=
  fun g =>
    let '(i1, j1, k1) := c1 in
    let '(i2, j2, k2) := c2 in
    '(r1, g1) <- indicesFromCell m i1 j1 k1 g ;;
    let before := deref r1 g1 in
    '(_, g2) <- indicesFromCell m i2 j2 k2 g1 ;;
    let after := deref r1 g2 in
    Ok ((before, after), g2).

(** No candidate of the axis is dropped: the axis is periodic and the shell
    is no wider than the axis, or the whole shell lies inside the axis. *)
Definition unpruned (p : bool) (R c s : Z) : Prop :=
  (p = true /\ s <= R) \/ (s <= c /\ c + s < R).

(** ** Properties *)

(** *** Machine integers *)

Lemma wrap_small (z : Z) : Int.in_range z -> Int.wrap z = z.
Proof.
  unfold Int.in_range, Int.wrap, Int.min_int, Int.max_int, Int.modulus.
  intros H. rewrite Z.mod_small; lia.
Qed.

Lemma add_small (a b : Z) : Int.in_range (a + b) -> Int.add a b = a + b.
Proof. apply wrap_small. Qed.

Lemma sub_small (a b : Z) : Int.in_range (a - b) -> Int.sub a b = a - b.
Proof. apply wrap_small. Qed.

Lemma mul_small (a b : Z) : Int.in_range (a * b) -> Int.mul a b = a * b.
Proof. apply wrap_small. Qed.

Lemma in_range_nonneg (z : Z) : 0 <= z <= Int.max_int -> Int.in_range z.
Proof. unfold Int.in_range, Int.min_int, Int.max_int. lia. Qed.

Lemma in_rangeb_true (z : Z) : Int.in_range z -> Int.in_rangeb z = true.
Proof.
  unfold Int.in_range, Int.in_rangeb. intros [H1 H2].
  apply andb_true_intro; split; apply Z.leb_le; assumption.
Qed.

(** *** Vectors *)

Lemma zrange_length (lo : Z) (n : nat) : length (zrange lo n) = n.
Proof. unfold zrange. rewrite length_map, length_seq. reflexivity. Qed.

Lemma zrange_succ (lo : Z) (n : nat) : zrange lo (S n) = lo :: zrange (lo + 1) n.
Proof.
  unfold zrange. simpl. rewrite Z.add_0_r. f_equal.
  rewrite <- seq_shift, map_map. apply map_ext. intros k. lia.
Qed.

Lemma zrange_In (lo : Z) (n : nat) (x : Z) :
  In x (zrange lo n) <-> lo <= x < lo + Z.of_nat n.
Proof.
  unfold zrange. rewrite in_map_iff. split.
  - intros (k & <- & Hk). apply in_seq in Hk. lia.
  - intros H. exists (Z.to_nat (x - lo)). split; [lia|]. apply in_seq. lia.
Qed.

Lemma zrange_nth (lo : Z) (n k : nat) (d : Z) :
  (k < n)%nat -> nth k (zrange lo n) d = lo + Z.of_nat k.
Proof.
  revert lo k. induction n as [|n IH]; intros lo k H; [lia|].
  rewrite zrange_succ. destruct k as [|k]; cbn [nth]; [lia|].
  rewrite IH by lia. lia.
Qed.

Lemma replace_nth_app (pre : list Z) (o x : Z) (rest : list Z) :
  replace_nth (length pre) x (pre ++ o :: rest) = Some (pre ++ x :: rest).
Proof.
  induction pre as [|h pre IH]; simpl; [reflexivity|].
  rewrite IH. reflexivity.
Qed.

Lemma vector_set_app (pre : list Z) (o x : Z) (rest : list Z) :
  vector_set (pre ++ o :: rest) (Z.of_nat (length pre)) x = Ok (pre ++ x :: rest).
Proof.
  unfold vector_set.
  destruct (Z.ltb_spec (Z.of_nat (length pre)) 0) as [H|_]; [lia|].
  rewrite Nat2Z.id, replace_nth_app. reflexivity.
Qed.

Lemma vector_get_nth {A : Type} (v : list A) (i : nat) (d : A) :
  (i < length v)%nat -> vector_get v (Z.of_nat i) = Ok (nth i v d).
Proof.
  intros H. unfold vector_get.
  destruct (Z.ltb_spec (Z.of_nat i) 0) as [H0|_]; [lia|].
  rewrite Nat2Z.id.
  destruct (nth_error v i) as [x|] eqn:E.
  - apply nth_error_nth with (d := d) in E. rewrite E. reflexivity.
  - apply nth_error_None in E. lia.
Qed.

(** *** The cell encoder *)

Lemma fill_cell_indices_ok (count : nat) :
  forall (pre old rest : list Z) (tmp3 : Z),
    length old = count ->
    (forall x, Z.of_nat (length pre) <= x < Z.of_nat (length pre) + Z.of_nat count ->
               Int.in_range (tmp3 + x)) ->
    fill_cell_indices count (Z.of_nat (length pre)) tmp3 (pre ++ old ++ rest)
    = Ok (pre ++ map (fun l => tmp3 + l) (zrange (Z.of_nat (length pre)) count) ++ rest).
Proof.
  induction count as [|count IH]; intros pre old rest tmp3 Hlen Hfit.
  - destruct old; [reflexivity|discriminate].
  - destruct old as [|o old]; [discriminate|].
    injection Hlen as Hlen. cbn [fill_cell_indices].
    change ((o :: old) ++ rest) with (o :: old ++ rest).
    rewrite vector_set_app. cbn [bind].
    rewrite add_small by (apply Hfit; lia).
    rewrite zrange_succ. cbn [map app].
    specialize (IH (pre ++ [tmp3 + Z.of_nat (length pre)]) old rest tmp3 Hlen).
    rewrite length_app in IH. cbn [length] in IH.
    replace (Z.of_nat (length pre + 1)) with (Z.of_nat (length pre) + 1) in IH by lia.
    rewrite <- !app_assoc in IH. cbn [app] in IH.
    apply IH. intros x Hx. apply Hfit. lia.
Qed.

Lemma cell_linear_bounds (Ra Rb Rc i j k : Z) :
  0 <= i < Ra -> 0 <= j < Rb -> 0 <= k < Rc ->
  0 <= i * Rb + j < Ra * Rb /\ 0 <= cell_linear Rb Rc i j k < Ra * Rb * Rc.
Proof.
  unfold cell_linear. intros Hi Hj Hk.
  assert (H1 : 0 <= i * Rb) by (apply Z.mul_nonneg_nonneg; lia).
  assert (H2 : (i + 1) * Rb <= Ra * Rb) by (apply Z.mul_le_mono_nonneg_r; lia).
  assert (H3 : 0 <= (i * Rb + j) * Rc) by (apply Z.mul_nonneg_nonneg; lia).
  assert (H4 : (i * Rb + j + 1) * Rc <= Ra * Rb * Rc)
    by (apply Z.mul_le_mono_nonneg_r; lia).
  lia.
Qed.

Lemma indicesFromCell_ok (m : LatticeMap) (Ra Rb Rc i j k : Z) (g : Buffer) :
  valid_map m Ra Rb Rc -> buffer_ready m g ->
  0 <= i < Ra -> 0 <= j < Rb -> 0 <= k < Rc ->
  indicesFromCell m i j k g
  = Ok (tmp_cell_indices_ref, cell_sites (n_basis_ m) Rb Rc i j k).
Proof.
  intros V Hg Hi Hj Hk.
  destruct (cell_linear_bounds Ra Rb Rc i j k Hi Hj Hk) as [H1 H2].
  pose proof (valid_basis _ _ _ _ V) as Hnb.
  pose proof (valid_sites _ _ _ _ V) as Hfit.
  pose proof (valid_Ra _ _ _ _ V) as HRa.
  pose proof (valid_Rb _ _ _ _ V) as HRb.
  pose proof (valid_Rc _ _ _ _ V) as HRc.
  unfold cell_linear in H2.
  assert (Hcells : Ra * Rb * Rc <= Int.max_int) by nia.
  unfold indicesFromCell. rewrite (valid_repetitions _ _ _ _ V).
  change (vector_get [Ra; Rb; Rc] 1) with (Ok Rb).
  change (vector_get [Ra; Rb; Rc] 2) with (Ok Rc).
  cbn [bind].
  rewrite (mul_small i Rb) by (apply in_range_nonneg; nia).
  rewrite (add_small (i * Rb) j) by (apply in_range_nonneg; nia).
  rewrite (mul_small (i * Rb + j) Rc) by (apply in_range_nonneg; nia).
  rewrite (add_small ((i * Rb + j) * Rc) k) by (apply in_range_nonneg; nia).
  rewrite (mul_small _ (n_basis_ m)) by (apply in_range_nonneg; nia).
  pose proof (fill_cell_indices_ok (Z.to_nat (n_basis_ m)) [] g []
                ((((i * Rb + j) * Rc) + k) * n_basis_ m)) as F.
  cbn [length app] in F. rewrite app_nil_r in F.
  change (Z.of_nat 0) with 0 in F.
  rewrite F.
  - cbn [bind]. rewrite app_nil_r. reflexivity.
  - exact Hg.
  - intros x Hx. apply in_range_nonneg. nia.
Qed.

(** *** The cell decoder *)

Lemma scan_cell_loop (idx f q : Z) (n : nat) :
  forall (c : Z) (fuel : nat),
    0 < f -> 0 <= c -> c + Z.of_nat n = q ->
    q * f < idx <= (q + 1) * f ->
    (q + 1) * f <= Int.max_int ->
    (n < fuel)%nat ->
    while fuel (fun st => snd st <? idx)
          (fun st => Ok (Int.add (fst st) 1, Int.add (snd st) f))
          (c, (c + 1) * f)
    = Ok (q, (q + 1) * f).
Proof.
  induction n as [|n IH]; intros c fuel Hf Hc Hq Hidx Hmax Hfuel;
    (destruct fuel as [|fuel]; [lia|]); cbn [while fst snd].
  - replace c with q by lia.
    destruct (Z.ltb_spec ((q + 1) * f) idx) as [H|_]; [lia|reflexivity].
  - assert (Hlt : (c + 1) * f <= q * f) by (apply Z.mul_le_mono_nonneg_r; lia).
    assert (Hq1 : q + 1 <= (q + 1) * f) by nia.
    assert (Hc2 : (c + 1 + 1) * f <= (q + 1) * f)
      by (apply Z.mul_le_mono_nonneg_r; lia).
    assert (Hc0 : 0 <= (c + 1) * f) by (apply Z.mul_nonneg_nonneg; lia).
    destruct (Z.ltb_spec ((c + 1) * f) idx) as [_|H]; [|lia].
    cbn [bind].
    rewrite (add_small c 1) by (apply in_range_nonneg; lia).
    rewrite (add_small ((c + 1) * f) f) by (apply in_range_nonneg; lia).
    replace ((c + 1) * f + f) with ((c + 1 + 1) * f) by ring.
    apply IH; lia.
Qed.

Lemma scan_cell_ok (fuel : nat) (idx f q : Z) :
  0 < f -> 0 <= q -> q * f < idx <= (q + 1) * f ->
  (q + 1) * f <= Int.max_int -> q < Z.of_nat fuel ->
  scan_cell fuel idx f = Ok (q, (q + 1) * f).
Proof.
  intros Hf Hq Hidx Hmax Hfuel. unfold scan_cell.
  pose proof (scan_cell_loop idx f q (Z.to_nat q) 0 fuel) as L.
  replace ((0 + 1) * f) with f in L by ring.
  apply L; lia.
Qed.

Lemma count_up_loop (idx_k : Z) (n : nat) :
  forall (c : Z) (fuel : nat),
    0 <= c -> c + Z.of_nat n = idx_k -> idx_k <= Int.max_int ->
    (n < fuel)%nat ->
    while fuel (fun c => c <? idx_k) (fun c => Ok (Int.add c 1)) c = Ok idx_k.
Proof.
  induction n as [|n IH]; intros c fuel Hc Hn Hmax Hfuel;
    (destruct fuel as [|fuel]; [lia|]); cbn [while].
  - destruct (Z.ltb_spec c idx_k) as [H|_]; [lia|]. f_equal. lia.
  - destruct (Z.ltb_spec c idx_k) as [_|H]; [|lia].
    cbn [bind]. rewrite add_small by (apply in_range_nonneg; lia).
    apply IH; lia.
Qed.

(** The direct decode inverts the mapping law. *)
Lemma direct_decode_facts (nb Ra Rb Rc index : Z) :
  0 < nb -> 0 < Ra -> 0 < Rb -> 0 < Rc ->
  0 <= index < Ra * Rb * Rc * nb ->
  let '(i, j, k) := direct_decode nb Rb Rc index in
  0 <= i < Ra /\ 0 <= j < Rb /\ 0 <= k < Rc
  /\ index / nb = cell_linear Rb Rc i j k
  /\ index = cell_linear Rb Rc i j k * nb + index mod nb
  /\ 0 <= index mod nb < nb.
Proof.
  intros Hnb HRa HRb HRc Hidx. unfold direct_decode, cell_linear.
  set (c := index / nb).
  pose proof (Z.div_mod index nb ltac:(lia)) as Dn.
  pose proof (Z.mod_pos_bound index nb Hnb) as Bn.
  fold c in Dn.
  assert (Hc : 0 <= c < Ra * Rb * Rc).
  { split; [apply Z.div_pos; lia|].
    apply Z.div_lt_upper_bound; [lia|]. lia. }
  rewrite (Z.mul_comm Rb Rc).
  rewrite <- (Z.div_div c Rc Rb) by lia.
  set (t := c / Rc).
  pose proof (Z.div_mod c Rc ltac:(lia)) as Dc. fold t in Dc.
  pose proof (Z.mod_pos_bound c Rc HRc) as Bc.
  pose proof (Z.div_mod t Rb ltac:(lia)) as Dt.
  pose proof (Z.mod_pos_bound t Rb HRb) as Bt.
  assert (Ht : 0 <= t < Ra * Rb).
  { split; [apply Z.div_pos; lia|].
    apply Z.div_lt_upper_bound; [lia|]. lia. }
  assert (Hi : 0 <= t / Rb < Ra).
  { split; [apply Z.div_pos; lia|].
    apply Z.div_lt_upper_bound; [lia|]. lia. }
  repeat split; try lia.
Qed.

Lemma indexToCell_ok (fuel : nat) (m : LatticeMap) (Ra Rb Rc index : Z) :
  valid_map m Ra Rb Rc ->
  0 <= index < Ra * Rb * Rc * n_basis_ m ->
  Ra <= Z.of_nat fuel -> Rb <= Z.of_nat fuel -> Rc <= Z.of_nat fuel ->
  indexToCell fuel m index = Ok (direct_decode (n_basis_ m) Rb Rc index).
Proof.
  intros V Hidx Fa Fb Fc.
  pose proof (valid_basis _ _ _ _ V) as Hnb.
  pose proof (valid_sites _ _ _ _ V) as Hfit.
  pose proof (valid_Ra _ _ _ _ V) as HRa.
  pose proof (valid_Rb _ _ _ _ V) as HRb.
  pose proof (valid_Rc _ _ _ _ V) as HRc.
  pose proof (direct_decode_facts (n_basis_ m) Ra Rb Rc index Hnb HRa HRb HRc Hidx) as D.
  destruct (direct_decode (n_basis_ m) Rb Rc index) as [[i j] k] eqn:E.
  destruct D as (Hi & Hj & Hk & Hc & _ & _).
  destruct (cell_linear_bounds Ra Rb Rc i j k Hi Hj Hk) as [B1 B2].
  unfold cell_linear in *.
  assert (Hcells : Ra * Rb * Rc <= Int.max_int) by nia.
  assert (Hbc : 0 < Rb * Rc) by nia.
  assert (Hbc' : (i + 1) * (Rb * Rc) <= Ra * Rb * Rc).
  { replace (Ra * Rb * Rc) with (Ra * (Rb * Rc)) by ring.
    apply Z.mul_le_mono_nonneg_r; lia. }
  assert (Hbc2 : Rb * Rc <= Ra * Rb * Rc) by nia.
  assert (Hi0 : 0 <= i * (Rb * Rc)) by nia.
  assert (Hj0 : 0 <= j * Rc) by nia.
  assert (Hj1 : (j + 1) * Rc <= Rb * Rc) by (apply Z.mul_le_mono_nonneg_r; lia).
  unfold indexToCell, int_div.
  destruct (Z.eqb_spec (n_basis_ m) 0) as [H0|_]; [lia|]. cbn [bind].
  unfold Int.quot. rewrite Z.quot_div_nonneg by lia.
  rewrite Hc. rewrite wrap_small by (apply in_range_nonneg; lia).
  rewrite add_small by (apply in_range_nonneg; lia).
  rewrite (valid_repetitions _ _ _ _ V).
  change (vector_get [Ra; Rb; Rc] 1) with (Ok Rb).
  change (vector_get [Ra; Rb; Rc] 2) with (Ok Rc).
  cbn [bind].
  rewrite (mul_small Rb Rc) by (apply in_range_nonneg; lia).
  rewrite (scan_cell_ok fuel _ (Rb * Rc) i) by lia.
  cbn [bind].
  rewrite (mul_small i (Rb * Rc)) by (apply in_range_nonneg; lia).
  rewrite sub_small by (apply in_range_nonneg; lia).
  rewrite (scan_cell_ok fuel _ Rc j) by lia.
  cbn [bind].
  rewrite (mul_small j Rc) by (apply in_range_nonneg; lia).
  rewrite (add_small (i * (Rb * Rc)) (j * Rc)) by (apply in_range_nonneg; lia).
  rewrite sub_small by (apply in_range_nonneg; lia).
  match goal with
  | |- context [while _ (fun c => c <? ?e) _ _] => replace e with (k + 1) by ring
  end.
  rewrite (count_up_loop (k + 1) (Z.to_nat k)) by lia.
  cbn [bind].
  rewrite sub_small by (apply in_range_nonneg; lia).
  do 2 f_equal. lia.
Qed.

(** *** Loops over a range *)

Lemma for_le_loop {S : Type} (body : Z -> S -> outcome S) (hi : Z) (n : nat) :
  forall (lo : Z) (fuel : nat) (s : S),
    Int.min_int <= lo -> hi < Int.max_int -> lo + Z.of_nat n = hi + 1 ->
    (n < fuel)%nat ->
    while fuel (fun st => fst st <=? hi)
          (fun st => s1 <- body (fst st) (snd st) ;; Ok (Int.add (fst st) 1, s1))
          (lo, s)
    = (s' <- foldM body (zrange lo n) s ;; Ok (hi + 1, s')).
Proof.
  induction n as [|n IH]; intros lo fuel s Hlo Hhi Hn Hfuel;
    (destruct fuel as [|fuel]; [lia|]); cbn [while fst snd].
  - destruct (Z.leb_spec lo hi) as [H|_]; [lia|].
    cbn. f_equal. f_equal. lia.
  - destruct (Z.leb_spec lo hi) as [_|H]; [|lia].
    rewrite zrange_succ. cbn [foldM].
    destruct (body lo s) as [s1|f]; cbn [bind]; [|reflexivity].
    rewrite add_small by (unfold Int.in_range; lia).
    apply IH; lia.
Qed.

Lemma for_le_foldM {S : Type} (fuel : nat) (lo hi : Z)
      (body : Z -> S -> outcome S) (s : S) :
  Int.min_int <= lo -> hi < Int.max_int -> lo <= hi + 1 ->
  hi - lo + 1 < Z.of_nat fuel ->
  for_le fuel lo hi body s = foldM body (zrange lo (Z.to_nat (hi - lo + 1))) s.
Proof.
  intros Hlo Hhi Hle Hfuel. unfold for_le.
  rewrite (for_le_loop body hi (Z.to_nat (hi - lo + 1))) by lia.
  destruct (foldM body _ s); reflexivity.
Qed.

(** *** One axis of the neighbourhood *)

Lemma axis_candidate_ok (m : LatticeMap) (a : Z) (p : bool) (R x : Z) :
  vector_get (periodic_ m) a = Ok p ->
  vector_get (repetitions_ m) a = Ok R ->
  0 < R <= Int.max_int -> Int.in_range x ->
  axis_candidate m a x = Ok (axis_cell p R x).
Proof.
  intros Hp HR HRb Hx. unfold axis_candidate, axis_cell.
  rewrite Hp, HR. cbn [bind].
  unfold Int.in_range, Int.min_int, Int.max_int in Hx. unfold Int.max_int in HRb.
  destruct p.
  - destruct (Z.ltb_spec x 0) as [Hneg|Hpos]; cbn [bind].
    + rewrite add_small by (unfold Int.in_range, Int.min_int, Int.max_int; lia).
      destruct (Z.geb_spec (x + R) 0); cbn [bind andb]; reflexivity.
    + destruct (Z.geb_spec x R) as [Hge|Hlt]; cbn [bind].
      * rewrite sub_small by (unfold Int.in_range, Int.min_int, Int.max_int; lia).
        destruct (Z.geb_spec (x - R) 0); cbn [bind andb]; reflexivity.
      * destruct (Z.geb_spec x 0); cbn [bind andb]; reflexivity.
  - cbn [bind]. destruct (Z.geb_spec x 0); cbn [bind andb]; reflexivity.
Qed.

Lemma axis_cell_bounds (p : bool) (R x ii : Z) :
  axis_cell p R x = Some ii -> 0 <= ii < R.
Proof.
  unfold axis_cell.
  set (y := if p then _ else _).
  destruct (Z.geb_spec y 0); destruct (Z.ltb_spec y R); cbn [andb];
    intros E; inversion E; subst; lia.
Qed.

(** *** Copying cells into the result vector *)

Lemma skipn_repeat_zero (n r : nat) :
  (n <= r)%nat -> skipn n (repeat 0 r) = repeat 0 (r - n).
Proof.
  revert r. induction n as [|n IH]; intros r H.
  - rewrite Nat.sub_0_r. reflexivity.
  - destruct r as [|r]; [lia|]. cbn [repeat skipn Nat.sub]. apply IH. lia.
Qed.

Lemma memcpy_append (W src : list Z) (r : nat) (n : Z) :
  n = Z.of_nat (length src) -> (length src <= r)%nat ->
  memcpy (W ++ repeat 0 r) (Z.of_nat (length W)) src n
  = Ok (W ++ src ++ repeat 0 (r - length src)).
Proof.
  intros -> Hr. unfold memcpy.
  destruct (Z.ltb_spec (Z.of_nat (length src)) 0) as [H|_]; [lia|].
  destruct (Z.ltb_spec (Z.of_nat (length W)) 0) as [H|_]; [lia|].
  destruct (Z.ltb_spec (Z.of_nat (length src)) (Z.of_nat (length src))) as [H|_]; [lia|].
  rewrite length_app, repeat_length.
  destruct (Z.ltb_spec (Z.of_nat (length W + r))
              (Z.of_nat (length W) + Z.of_nat (length src))) as [H|_]; [lia|].
  cbn [orb]. f_equal.
  rewrite !Nat2Z.id, <- Nat2Z.inj_add, Nat2Z.id.
  rewrite firstn_app, firstn_all, Nat.sub_diag, firstn_O, app_nil_r.
  rewrite firstn_all.
  rewrite skipn_app, skipn_all2 by lia.
  replace (length W + length src - length W)%nat with (length src) by lia.
  rewrite skipn_repeat_zero by exact Hr. reflexivity.
Qed.

Lemma cell_sites_length (nb Rb Rc i j k : Z) :
  length (cell_sites nb Rb Rc i j k) = Z.to_nat nb.
Proof. unfold cell_sites. rewrite length_map, zrange_length. reflexivity. Qed.

Lemma copy_cell_ok (m : LatticeMap) (Ra Rb Rc cap ii jj kk : Z) (W : list Z)
      (st : locals * Buffer) :
  valid_map m Ra Rb Rc -> cap <= Int.max_int ->
  0 <= ii < Ra -> 0 <= jj < Rb -> 0 <= kk < Rc ->
  written m cap W st ->
  Z.of_nat (length W) + n_basis_ m <= cap ->
  exists st', copy_cell m ii jj kk st = Ok st'
              /\ written m cap (W ++ cell_sites (n_basis_ m) Rb Rc ii jj kk) st'.
Proof.
  intros V Hcap Hi Hj Hk (Hnb & Hptr & Hcnt & Hle & Hg) Hroom.
  pose proof (valid_basis _ _ _ _ V) as Hpos.
  unfold copy_cell.
  rewrite (indicesFromCell_ok m Ra Rb Rc ii jj kk (snd st) V Hg Hi Hj Hk).
  cbn [bind deref]. rewrite Hnb, Hptr, Hcnt.
  set (src := cell_sites (n_basis_ m) Rb Rc ii jj kk).
  assert (Hsrc : length src = Z.to_nat (n_basis_ m)) by apply cell_sites_length.
  rewrite memcpy_append by lia.
  cbn [bind]. eexists. split; [reflexivity|].
  unfold written. cbn [fst snd neighbours neighbours_ptr counter].
  rewrite length_app, Hsrc.
  repeat split.
  - rewrite <- app_assoc. do 2 f_equal. f_equal. lia.
  - lia.
  - rewrite add_small by (apply in_range_nonneg; lia). lia.
  - lia.
  - unfold buffer_ready. exact Hsrc.
Qed.

Lemma flat_map_length_le {A : Type} (f : A -> list Z) (B : Z) (xs : list A) :
  0 <= B -> (forall x, In x xs -> Z.of_nat (length (f x)) <= B) ->
  Z.of_nat (length (flat_map f xs)) <= B * Z.of_nat (length xs).
Proof.
  intros HB. induction xs as [|x xs IH]; intros H; cbn [flat_map length].
  - lia.
  - rewrite length_app.
    assert (H1 := H x (or_introl eq_refl)).
    assert (H2 : Z.of_nat (length (flat_map f xs)) <= B * Z.of_nat (length xs)).
    { apply IH. intros y Hy. apply H. right. exact Hy. }
    lia.
Qed.

(** A loop whose body appends at most [B] sites per value of the loop
    variable appends the concatenation of what each value contributes. *)
Lemma foldM_emit (m : LatticeMap) (cap B : Z)
      (body : Z -> locals * Buffer -> outcome (locals * Buffer))
      (emit : Z -> list Z) (xs : list Z) :
  0 <= B ->
  (forall x, In x xs -> Z.of_nat (length (emit x)) <= B) ->
  (forall x W st, In x xs -> written m cap W st ->
                  Z.of_nat (length W) + B <= cap ->
                  exists st', body x st = Ok st' /\ written m cap (W ++ emit x) st') ->
  forall W st, written m cap W st ->
               Z.of_nat (length W) + B * Z.of_nat (length xs) <= cap ->
               exists st', foldM body xs st = Ok st'
                           /\ written m cap (W ++ flat_map emit xs) st'.
Proof.
  intros HB. induction xs as [|x xs IH]; intros Hlen Hbody W st Hw Hroom.
  - exists st. cbn [foldM flat_map]. rewrite app_nil_r. split; [reflexivity|exact Hw].
  - cbn [length] in Hroom.
    assert (Hx := Hlen x (or_introl eq_refl)).
    destruct (Hbody x W st (or_introl eq_refl) Hw) as (st1 & E1 & W1); [nia|].
    destruct (IH (fun y Hy => Hlen y (or_intror Hy))
                 (fun y W' st' Hy => Hbody y W' st' (or_intror Hy))
                 (W ++ emit x) st1 W1) as (st2 & E2 & W2).
    { rewrite length_app. nia. }
    exists st2. cbn [foldM flat_map]. rewrite E1. cbn [bind].
    rewrite app_assoc. split; assumption.
Qed.

(** *** The neighbour enumerator *)

(** One of the three nested loops, over the candidates of axis [a], for any
    loop body [inner] that appends [emit cc] for a cell coordinate [cc]. *)
Lemma axis_loop_ok (m : LatticeMap) (cap B a : Z) (p : bool) (R c s : Z)
      (fuel : nat)
      (inner : Z -> locals * Buffer -> outcome (locals * Buffer))
      (emit : Z -> list Z) :
  vector_get (periodic_ m) a = Ok p ->
  vector_get (repetitions_ m) a = Ok R ->
  0 < R -> R + s <= Int.max_int -> 0 <= s -> 0 <= c < R ->
  2 * s + 1 < Z.of_nat fuel -> 0 <= B ->
  (forall cc, Z.of_nat (length (emit cc)) <= B) ->
  (forall cc W st, 0 <= cc < R -> written m cap W st ->
                   Z.of_nat (length W) + B <= cap ->
                   exists st', inner cc st = Ok st' /\ written m cap (W ++ emit cc) st') ->
  forall W st,
    written m cap W st ->
    Z.of_nat (length W) + B * (2 * s + 1) <= cap ->
    exists st',
      for_le fuel (Int.sub c s) (Int.add c s)
             (fun x st => o <- axis_candidate m a x ;;
                          match o with
                          | None => Ok st
                          | Some cc => inner cc st
                          end) st
      = Ok st'
      /\ written m cap
           (W ++ flat_map (fun x => match axis_cell p R x with
                                    | None => []
                                    | Some cc => emit cc
                                    end) (shell_range c s)) st'.
Proof.
  intros Hp HR HRpos HRs Hs Hc Hfuel HB Hemit Hinner W st Hw Hroom.
  assert (Hmax : Int.max_int = 2147483647) by reflexivity.
  assert (Hmin : Int.min_int = -2147483648) by reflexivity.
  rewrite sub_small by (unfold Int.in_range; lia).
  rewrite add_small by (unfold Int.in_range; lia).
  rewrite for_le_foldM by lia.
  replace (c + s - (c - s) + 1) with (2 * s + 1) by ring.
  fold (shell_range c s).
  apply foldM_emit with (B := B); try assumption.
  - intros x _. destruct (axis_cell p R x); [apply Hemit|cbn [length]; lia].
  - intros x W' st' Hx Hw' Hroom'.
    apply zrange_In in Hx.
    rewrite (axis_candidate_ok m a p R x Hp HR) by (unfold Int.in_range; lia).
    cbn [bind].
    destruct (axis_cell p R x) as [cc|] eqn:E.
    + apply Hinner; try assumption. exact (axis_cell_bounds _ _ _ _ E).
    + exists st'. rewrite app_nil_r. split; [reflexivity|exact Hw'].
  - unfold shell_range. rewrite zrange_length. lia.
Qed.

Lemma valid_periodic_flags (m : LatticeMap) (Ra Rb Rc : Z) :
  valid_map m Ra Rb Rc ->
  periodic_ m = [periodic_at m 0; periodic_at m 1; periodic_at m 2].
Proof.
  intros V. pose proof (valid_periodic _ _ _ _ V) as H.
  unfold periodic_at.
  destruct (periodic_ m) as [|pa [|pb [|pc [|? ?]]]]; try discriminate.
  reflexivity.
Qed.

Lemma vector_resize_written (m : LatticeMap) (cap : Z) (W : list Z)
      (st : locals * Buffer) :
  written m cap W st ->
  vector_resize (neighbours (fst st)) (counter (fst st)) = Ok W.
Proof.
  intros (Hnb & _ & Hcnt & _ & _). unfold vector_resize.
  rewrite Hnb, Hcnt.
  destruct (Z.ltb_spec (Z.of_nat (length W)) 0) as [H|_]; [lia|].
  rewrite Nat2Z.id. f_equal.
  rewrite firstn_app, firstn_all, Nat.sub_diag, firstn_O, app_nil_r.
  rewrite length_app, repeat_length.
  replace (length W - (length W + (Z.to_nat cap - length W)))%nat
    with 0%nat by lia.
  cbn [repeat]. apply app_nil_r.
Qed.

Lemma shell_range_length (c s : Z) :
  0 <= s -> Z.of_nat (length (shell_range c s)) = 2 * s + 1.
Proof. intros H. unfold shell_range. rewrite zrange_length. lia. Qed.

Lemma axis_emit_length (p : bool) (R B c s : Z) (emit : Z -> list Z) :
  0 <= s -> 0 <= B -> (forall cc, Z.of_nat (length (emit cc)) <= B) ->
  Z.of_nat (length (flat_map (fun x => match axis_cell p R x with
                                       | None => []
                                       | Some cc => emit cc
                                       end) (shell_range c s)))
  <= B * (2 * s + 1).
Proof.
  intros Hs HB Hemit. rewrite <- (shell_range_length c s Hs).
  apply flat_map_length_le; [exact HB|].
  intros x _. destruct (axis_cell p R x); [apply Hemit|cbn [length]; lia].
Qed.

(** [neighbourIndices] returns, and what it returns is [neighbour_sites]
    around the decoded cell. *)
Lemma neighbourIndices_ok (fuel : nat) (m : LatticeMap) (Ra Rb Rc index s : Z)
      (g : Buffer) :
  valid_map m Ra Rb Rc -> buffer_ready m g ->
  0 <= index < Ra * Rb * Rc * n_basis_ m ->
  shell_fits (n_basis_ m) Ra Rb Rc s -> enough_fuel Ra Rb Rc s fuel ->
  exists g',
    neighbourIndices fuel m index s g
    = Ok (neighbour_sites (n_basis_ m) Ra Rb Rc
            (periodic_at m 0) (periodic_at m 1) (periodic_at m 2) s
            (direct_decode (n_basis_ m) Rb Rc index), g')
    /\ buffer_ready m g'.
Proof.
  intros V Hg Hidx (Hs & Fa & Fb & Fc & Fcap) (Ea & Eb & Ec & Es).
  pose proof (valid_basis _ _ _ _ V) as Hnb.
  pose proof (valid_Ra _ _ _ _ V) as HRa.
  pose proof (valid_Rb _ _ _ _ V) as HRb.
  pose proof (valid_Rc _ _ _ _ V) as HRc.
  pose proof (valid_repetitions _ _ _ _ V) as Hreps.
  pose proof (valid_periodic_flags _ _ _ _ V) as Hper.
  pose proof (direct_decode_facts (n_basis_ m) Ra Rb Rc index Hnb HRa HRb HRc Hidx) as D.
  unfold neighbourIndices.
  rewrite (indexToCell_ok fuel m Ra Rb Rc index V Hidx Ea Eb Ec).
  destruct (direct_decode (n_basis_ m) Rb Rc index) as [[ci cj] ck].
  destruct D as (Hci & Hcj & Hck & _).
  cbn [bind neighbour_sites].
  set (nb := n_basis_ m) in *.
  set (w := 2 * s + 1).
  assert (Hw : 1 <= w) by (unfold w; lia).
  assert (Hw2 : w <= w * w) by nia.
  assert (Hw3 : w * w <= w ^ 3).
  { replace (w ^ 3) with (w * (w * w)) by ring. nia. }
  assert (Hcap0 : w ^ 3 <= w ^ 3 * nb) by nia.
  assert (Hnw : 0 <= nb * w) by (apply Z.mul_nonneg_nonneg; lia).
  assert (Hnww : 0 <= nb * w * w) by (apply Z.mul_nonneg_nonneg; lia).
  assert (Hmax : Int.max_int = 2147483647) by reflexivity.
  rewrite (mul_small 2 s) by (apply in_range_nonneg; lia).
  rewrite (add_small (2 * s) 1) by (apply in_range_nonneg; lia).
  fold w. unfold pow3_times.
  rewrite in_rangeb_true by (apply in_range_nonneg; lia).
  cbn [bind]. unfold vector_new.
  destruct (Z.ltb_spec (w ^ 3 * nb) 0) as [H|_]; [lia|].
  cbn [bind].
  set (cap := w ^ 3 * nb).
  set (st0 := ({| neighbours := repeat 0 (Z.to_nat cap);
                  neighbours_ptr := 0; counter := 0 |}, g)).
  assert (W0 : written m cap [] st0).
  { unfold written, st0. cbn. rewrite Nat.sub_0_r. repeat split; try lia. exact Hg. }
  assert (Pa : vector_get (periodic_ m) 0 = Ok (periodic_at m 0))
    by (rewrite Hper at 1; reflexivity).
  assert (Pb : vector_get (periodic_ m) 1 = Ok (periodic_at m 1))
    by (rewrite Hper at 1; reflexivity).
  assert (Pc : vector_get (periodic_ m) 2 = Ok (periodic_at m 2))
    by (rewrite Hper at 1; reflexivity).
  assert (Qa : vector_get (repetitions_ m) 0 = Ok Ra) by (rewrite Hreps; reflexivity).
  assert (Qb : vector_get (repetitions_ m) 1 = Ok Rb) by (rewrite Hreps; reflexivity).
  assert (Qc : vector_get (repetitions_ m) 2 = Ok Rc) by (rewrite Hreps; reflexivity).
  assert (Lk : forall ii jj cc,
             Z.of_nat (length (cell_sites nb Rb Rc ii jj cc)) <= nb).
  { intros. rewrite cell_sites_length. lia. }
  assert (Lj : forall ii jj,
             Z.of_nat (length (flat_map (fun k => match axis_cell (periodic_at m 2) Rc k with
                                                  | None => []
                                                  | Some kk => cell_sites nb Rb Rc ii jj kk
                                                  end) (shell_range ck s)))
             <= nb * w).
  { intros. apply axis_emit_length; try lia. apply Lk. }
  assert (Li : forall ii,
             Z.of_nat (length (flat_map (fun j => match axis_cell (periodic_at m 1) Rb j with
                | None => []
                | Some jj =>
                    flat_map (fun k => match axis_cell (periodic_at m 2) Rc k with
                                       | None => []
                                       | Some kk => cell_sites nb Rb Rc ii jj kk
                                       end) (shell_range ck s)
                end) (shell_range cj s)))
             <= nb * w * w).
  { intros. apply axis_emit_length; try lia. intros jj. apply Lj. }
  edestruct (axis_loop_ok m cap (nb * w * w) 0 (periodic_at m 0) Ra ci s fuel)
    as (st' & E & Wst); [exact Pa|exact Qa|lia|lia|lia|lia|lia|lia|exact Li| |exact W0| |].
  - (* the loop over j *)
    intros ii W st Hii Hw' Hroom.
    eapply (axis_loop_ok m cap (nb * w) 1 (periodic_at m 1) Rb cj s fuel);
      [exact Pb|exact Qb|lia|lia|lia|lia|lia|lia|intros jj; apply Lj| |exact Hw'|exact Hroom].
    (* the loop over k *)
    intros jj W1 st1 Hjj Hw1 Hroom1.
    eapply (axis_loop_ok m cap nb 2 (periodic_at m 2) Rc ck s fuel);
      [exact Pc|exact Qc|lia|lia|lia|lia|lia|lia|intros kk; apply Lk| |exact Hw1|exact Hroom1].
    intros kk W2 st2 Hkk Hw2' Hroom2.
    apply (copy_cell_ok m Ra Rb Rc cap ii jj kk W2 st2); assumption.
  - cbn [length]. unfold cap, w. ring_simplify. lia.
  - cbv beta in E. rewrite E. cbn [bind].
    rewrite (vector_resize_written m cap _ st' Wst). cbn [bind app].
    exists (snd st'). split; [reflexivity|].
    destruct Wst as (_ & _ & _ & _ & Hready). exact Hready.
Qed.

(** *** The addressing scheme *)

Lemma valid_bounds (m : LatticeMap) (Ra Rb Rc : Z) :
  valid_map m Ra Rb Rc ->
  Ra <= Int.max_int /\ Rb <= Int.max_int /\ Rc <= Int.max_int
  /\ n_basis_ m <= Int.max_int.
Proof.
  intros V.
  pose proof (valid_basis _ _ _ _ V) as Hnb.
  pose proof (valid_sites _ _ _ _ V) as Hfit.
  pose proof (valid_Ra _ _ _ _ V) as HRa.
  pose proof (valid_Rb _ _ _ _ V) as HRb.
  pose proof (valid_Rc _ _ _ _ V) as HRc.
  clear V.
  assert (H1 : Ra <= Ra * Rb) by nia.
  assert (H2 : Rb <= Ra * Rb) by nia.
  assert (H3 : Ra * Rb <= Ra * Rb * Rc) by nia.
  assert (H4 : Rc <= Ra * Rb * Rc) by nia.
  assert (H5 : Ra * Rb * Rc <= Ra * Rb * Rc * n_basis_ m) by nia.
  assert (H6 : n_basis_ m <= Ra * Rb * Rc * n_basis_ m) by nia.
  lia.
Qed.

Lemma cell_sites_nth_error (nb Rb Rc i j k l : Z) :
  0 <= l < nb ->
  nth_error (cell_sites nb Rb Rc i j k) (Z.to_nat l)
  = Some (cell_linear Rb Rc i j k * nb + l).
Proof.
  intros Hl. unfold cell_sites.
  rewrite nth_error_map.
  rewrite (nth_error_nth' _ 0) by (rewrite zrange_length; lia).
  rewrite zrange_nth by lia. cbn [option_map]. f_equal. lia.
Qed.

Lemma cell_sites_In (nb Rb Rc i j k x : Z) :
  In x (cell_sites nb Rb Rc i j k)
  <-> exists l, 0 <= l < nb /\ x = cell_linear Rb Rc i j k * nb + l.
Proof.
  unfold cell_sites. rewrite in_map_iff. split.
  - intros (l & <- & Hl). apply zrange_In in Hl. exists l. split; [lia|reflexivity].
  - intros (l & Hl & ->). exists l. split; [reflexivity|].
    apply zrange_In. lia.
Qed.

Lemma radix_unique (n a b r r' : Z) :
  0 <= r < n -> 0 <= r' < n -> a * n + r = b * n + r' -> a = b /\ r = r'.
Proof.
  intros Hr Hr' E.
  assert (Ha : a = (a * n + r) / n) by (apply Z.div_unique with (r := r); lia).
  assert (Hb : b = (a * n + r) / n) by (apply Z.div_unique with (r := r'); lia).
  assert (a = b) by congruence. subst b. split; lia.
Qed.

(** The mapping law is injective on valid tuples. *)
Lemma mapping_law_injective (nb Rb Rc i j k l i' j' k' l' : Z) :
  0 <= j < Rb -> 0 <= k < Rc -> 0 <= l < nb ->
  0 <= j' < Rb -> 0 <= k' < Rc -> 0 <= l' < nb ->
  cell_linear Rb Rc i j k * nb + l = cell_linear Rb Rc i' j' k' * nb + l' ->
  i = i' /\ j = j' /\ k = k' /\ l = l'.
Proof.
  unfold cell_linear. intros Hj Hk Hl Hj' Hk' Hl' E.
  apply radix_unique in E; [|assumption|assumption]. destruct E as [E ->].
  apply radix_unique in E; [|assumption|assumption]. destruct E as [E ->].
  apply radix_unique in E; [|assumption|assumption]. destruct E as [-> ->].
  repeat split.
Qed.

(** Strictly increasing sequences. *)
Lemma zrange_map_increasing (base lo : Z) (n : nat) :
  StronglySorted Z.lt (map (fun l => base + l) (zrange lo n)).
Proof.
  revert lo. induction n as [|n IH]; intros lo.
  - constructor.
  - rewrite zrange_succ. cbn [map]. constructor; [apply IH|].
    apply Forall_forall. intros x Hx. apply in_map_iff in Hx.
    destruct Hx as (l & <- & Hl). apply zrange_In in Hl. lia.
Qed.

Lemma cell_sites_increasing (nb Rb Rc i j k : Z) :
  StronglySorted Z.lt (cell_sites nb Rb Rc i j k).
Proof. unfold cell_sites. apply zrange_map_increasing. Qed.

(** *** Decoder and encoder: main results *)

Ltac valid_instance :=
  constructor; first [reflexivity | unfold Int.max_int; cbn; lia].

(** C2: for every index in [0, totalSites), the iterative scan of
    [indexToCell] returns (given fuel for its loops) exactly the triple of
    the direct arithmetic decode: with cellLinear = index / basisCount,
    i = cellLinear / (Rb*Rc), j = (cellLinear / Rc) mod Rb,
    k = cellLinear mod Rc. *)
Theorem indexToCell_is_direct_decode (fuel : nat) (m : LatticeMap)
        (Ra Rb Rc index : Z) :
  valid_map m Ra Rb Rc ->
  0 <= index < Ra * Rb * Rc * n_basis_ m ->
  Ra <= Z.of_nat fuel -> Rb <= Z.of_nat fuel -> Rc <= Z.of_nat fuel ->
  indexToCell fuel m index = Ok (direct_decode (n_basis_ m) Rb Rc index)
  /\ direct_decode (n_basis_ m) Rb Rc index
     = (index / n_basis_ m / (Rb * Rc),
        (index / n_basis_ m / Rc) mod Rb,
        (index / n_basis_ m) mod Rc).
Proof.
  intros V Hidx Fa Fb Fc. split.
  - apply (indexToCell_ok fuel m Ra Rb Rc index); assumption.
  - reflexivity.
Qed.

Lemma indexToCell_is_direct_decode_witness :
  indexToCell 4 lattice_2x3x4 47 = Ok (1, 2, 3).
Proof.
  refine (proj1 (indexToCell_is_direct_decode 4 lattice_2x3x4 2 3 4 47 _ _ _ _ _)).
  - valid_instance.
  - cbn. lia.
  - cbn. lia.
  - cbn. lia.
  - cbn. lia.
Defined.

(** C1: round trip.  For every index in [0, totalSites), decoding the index
    with [indexToCell] and encoding the cell with [indicesFromCell] yields a
    sequence that holds the index at position index mod basisCount. *)
Theorem decode_encode_round_trip (fuel : nat) (m : LatticeMap)
        (Ra Rb Rc index : Z) (g : Buffer) :
  valid_map m Ra Rb Rc -> buffer_ready m g ->
  0 <= index < Ra * Rb * Rc * n_basis_ m ->
  Ra <= Z.of_nat fuel -> Rb <= Z.of_nat fuel -> Rc <= Z.of_nat fuel ->
  exists i j k r g',
    indexToCell fuel m index = Ok (i, j, k)
    /\ indicesFromCell m i j k g = Ok (r, g')
    /\ nth_error (deref r g') (Z.to_nat (index mod n_basis_ m)) = Some index.
Proof.
  intros V Hg Hidx Fa Fb Fc.
  pose proof (direct_decode_facts (n_basis_ m) Ra Rb Rc index
                (valid_basis _ _ _ _ V) (valid_Ra _ _ _ _ V)
                (valid_Rb _ _ _ _ V) (valid_Rc _ _ _ _ V) Hidx) as D.
  pose proof (indexToCell_ok fuel m Ra Rb Rc index V Hidx Fa Fb Fc) as E.
  destruct (direct_decode (n_basis_ m) Rb Rc index) as [[i j] k].
  destruct D as (Hi & Hj & Hk & _ & Hlaw & Hl).
  exists i, j, k, tmp_cell_indices_ref, (cell_sites (n_basis_ m) Rb Rc i j k).
  split; [exact E|]. split.
  - apply (indicesFromCell_ok m Ra Rb Rc i j k g); assumption.
  - cbn [deref]. rewrite cell_sites_nth_error by exact Hl.
    f_equal. symmetry. exact Hlaw.
Qed.

Lemma decode_encode_round_trip_witness :
  exists i j k r g',
    indexToCell 4 lattice_2x3x4 47 = Ok (i, j, k)
    /\ indicesFromCell lattice_2x3x4 i j k [0; 0] = Ok (r, g')
    /\ nth_error (deref r g') (Z.to_nat (47 mod 2)) = Some 47.
Proof.
  refine (decode_encode_round_trip 4 lattice_2x3x4 2 3 4 47 [0; 0] _ _ _ _ _ _).
  - valid_instance.
  - reflexivity.
  - cbn. lia.
  - cbn. lia.
  - cbn. lia.
  - cbn. lia.
Defined.

(** C3: the encoder mapping law.  For a cell coordinate inside the grid,
    [indicesFromCell] returns exactly basisCount values, the l-th being
    ((i*Rb + j)*Rc + k)*basisCount + l, in strictly increasing order and
    inside [0, totalSites); the mapping from valid tuples (i,j,k,l) to flat
    indices is injective and reaches every index of [0, totalSites). *)
Theorem indicesFromCell_mapping_law (m : LatticeMap) (Ra Rb Rc : Z) (g : Buffer) :
  valid_map m Ra Rb Rc -> buffer_ready m g ->
  (forall i j k, 0 <= i < Ra -> 0 <= j < Rb -> 0 <= k < Rc ->
     exists r g',
       indicesFromCell m i j k g = Ok (r, g')
       /\ length (deref r g') = Z.to_nat (n_basis_ m)
       /\ (forall l, 0 <= l < n_basis_ m ->
             nth_error (deref r g') (Z.to_nat l)
             = Some (((i * Rb + j) * Rc + k) * n_basis_ m + l)
             /\ 0 <= ((i * Rb + j) * Rc + k) * n_basis_ m + l
                < Ra * Rb * Rc * n_basis_ m)
       /\ StronglySorted Z.lt (deref r g'))
  /\ (forall i j k l i' j' k' l',
        0 <= i < Ra -> 0 <= j < Rb -> 0 <= k < Rc -> 0 <= l < n_basis_ m ->
        0 <= i' < Ra -> 0 <= j' < Rb -> 0 <= k' < Rc -> 0 <= l' < n_basis_ m ->
        ((i * Rb + j) * Rc + k) * n_basis_ m + l
        = ((i' * Rb + j') * Rc + k') * n_basis_ m + l' ->
        i = i' /\ j = j' /\ k = k' /\ l = l')
  /\ (forall index, 0 <= index < Ra * Rb * Rc * n_basis_ m ->
        exists i j k l,
          0 <= i < Ra /\ 0 <= j < Rb /\ 0 <= k < Rc /\ 0 <= l < n_basis_ m
          /\ index = ((i * Rb + j) * Rc + k) * n_basis_ m + l).
Proof.
  intros V Hg.
  pose proof (valid_basis _ _ _ _ V) as Hnb.
  split; [|split].
  - intros i j k Hi Hj Hk.
    exists tmp_cell_indices_ref, (cell_sites (n_basis_ m) Rb Rc i j k).
    split; [apply (indicesFromCell_ok m Ra Rb Rc i j k g); assumption|].
    cbn [deref]. split; [apply cell_sites_length|]. split.
    + intros l Hl. split; [apply cell_sites_nth_error; exact Hl|].
      destruct (cell_linear_bounds Ra Rb Rc i j k Hi Hj Hk) as [_ B].
      unfold cell_linear in B.
      assert (B1 : 0 <= ((i * Rb + j) * Rc + k) * n_basis_ m)
        by (apply Z.mul_nonneg_nonneg; lia).
      assert (B2 : (((i * Rb + j) * Rc + k) + 1) * n_basis_ m
                   <= Ra * Rb * Rc * n_basis_ m)
        by (apply Z.mul_le_mono_nonneg_r; lia).
      lia.
    + apply cell_sites_increasing.
  - intros i j k l i' j' k' l' _ Hj Hk Hl _ Hj' Hk' Hl' E.
    apply (mapping_law_injective (n_basis_ m) Rb Rc i j k l i' j' k' l');
      assumption.
  - intros index Hidx.
    pose proof (direct_decode_facts (n_basis_ m) Ra Rb Rc index Hnb
                  (valid_Ra _ _ _ _ V) (valid_Rb _ _ _ _ V)
                  (valid_Rc _ _ _ _ V) Hidx) as D.
    destruct (direct_decode (n_basis_ m) Rb Rc index) as [[i j] k].
    destruct D as (Hi & Hj & Hk & _ & Hlaw & Hl).
    exists i, j, k, (index mod n_basis_ m). repeat split; try lia.
    exact Hlaw.
Qed.

Lemma indicesFromCell_mapping_law_witness :
  exists r g',
    indicesFromCell lattice_2x3x4 1 2 3 [0; 0] = Ok (r, g')
    /\ deref r g' = [46; 47].
Proof.
  destruct (indicesFromCell_mapping_law lattice_2x3x4 2 3 4 [0; 0]) as [H _].
  - valid_instance.
  - reflexivity.
  - destruct (H 1 2 3) as (r & g' & E & _); [lia|lia|lia|].
    exists r, g'. split; [exact E|].
    cbv in E. injection E as <- <-. reflexivity.
Defined.

(** *** The shape of a neighbour list *)

Lemma axis_cell_inside (p : bool) (R x : Z) :
  0 <= x < R -> axis_cell p R x = Some x.
Proof.
  intros H. unfold axis_cell.
  destruct (Z.ltb_spec x 0) as [H0|_]; [lia|].
  destruct (Z.geb_spec x R) as [H1|_]; [lia|].
  replace (if p then x else x) with x by (destruct p; reflexivity).
  destruct (Z.geb_spec x 0) as [_|H2]; [|lia].
  destruct (Z.ltb_spec x R) as [_|H3]; [|lia].
  reflexivity.
Qed.

Lemma flat_map_multiple {A : Type} (f : A -> list Z) (nb Q : Z) (xs : list A) :
  (forall x, exists q, 0 <= q <= Q /\ Z.of_nat (length (f x)) = q * nb) ->
  exists q, 0 <= q <= Q * Z.of_nat (length xs)
            /\ Z.of_nat (length (flat_map f xs)) = q * nb.
Proof.
  intros Hf. induction xs as [|x xs IH]; cbn [flat_map length].
  - exists 0. lia.
  - destruct (Hf x) as (q1 & B1 & E1). destruct IH as (q2 & B2 & E2).
    exists (q1 + q2). rewrite length_app, Nat2Z.inj_add, Nat2Z.inj_succ. lia.
Qed.

Lemma axis_emit_multiple (p : bool) (R nb Q c s : Z) (emit : Z -> list Z) :
  0 <= s -> 0 <= Q ->
  (forall cc, exists q, 0 <= q <= Q /\ Z.of_nat (length (emit cc)) = q * nb) ->
  exists q, 0 <= q <= Q * (2 * s + 1)
            /\ Z.of_nat (length (flat_map (fun x => match axis_cell p R x with
                                                    | None => []
                                                    | Some cc => emit cc
                                                    end) (shell_range c s)))
               = q * nb.
Proof.
  intros Hs HQ Hemit. rewrite <- (shell_range_length c s Hs).
  apply flat_map_multiple. intros x.
  destruct (axis_cell p R x) as [cc|]; [apply Hemit|].
  exists 0. cbn [length]. lia.
Qed.

Lemma neighbour_sites_length (nb Ra Rb Rc : Z) (pa pb pc : bool) (s : Z)
      (cell : Z * Z * Z) :
  0 <= nb -> 0 <= s ->
  exists q, 0 <= q <= (2 * s + 1) ^ 3
            /\ Z.of_nat (length (neighbour_sites nb Ra Rb Rc pa pb pc s cell))
               = q * nb.
Proof.
  intros Hnb Hs. destruct cell as [[ci cj] ck]. unfold neighbour_sites.
  replace ((2 * s + 1) ^ 3) with (1 * (2 * s + 1) * (2 * s + 1) * (2 * s + 1)) by ring.
  assert (Hw : 0 <= 1 * (2 * s + 1)) by lia.
  assert (Hw2 : 0 <= 1 * (2 * s + 1) * (2 * s + 1))
    by (apply Z.mul_nonneg_nonneg; lia).
  apply axis_emit_multiple; [exact Hs|exact Hw2|]. intros ii.
  apply axis_emit_multiple; [exact Hs|exact Hw|]. intros jj.
  apply axis_emit_multiple; [exact Hs|lia|]. intros kk.
  exists 1. rewrite cell_sites_length. lia.
Qed.

Lemma shell_range_zero (c : Z) : shell_range c 0 = [c].
Proof.
  unfold shell_range. change (Z.to_nat (2 * 0 + 1)) with 1%nat.
  rewrite zrange_succ. cbn [zrange map seq]. f_equal. lia.
Qed.

Lemma neighbour_sites_zero (nb Ra Rb Rc : Z) (pa pb pc : bool) (i j k : Z) :
  0 <= i < Ra -> 0 <= j < Rb -> 0 <= k < Rc ->
  neighbour_sites nb Ra Rb Rc pa pb pc 0 (i, j, k) = cell_sites nb Rb Rc i j k.
Proof.
  intros Hi Hj Hk. unfold neighbour_sites.
  rewrite !shell_range_zero. cbn [flat_map].
  rewrite (axis_cell_inside pa Ra i Hi). cbn [flat_map].
  rewrite (axis_cell_inside pb Rb j Hj). cbn [flat_map].
  rewrite (axis_cell_inside pc Rc k Hk).
  rewrite !app_nil_r. reflexivity.
Qed.

Lemma shell_fits_zero (m : LatticeMap) (Ra Rb Rc : Z) :
  valid_map m Ra Rb Rc -> shell_fits (n_basis_ m) Ra Rb Rc 0.
Proof.
  intros V. destruct (valid_bounds m Ra Rb Rc V) as (Ha & Hb & Hc & Hn).
  unfold shell_fits. change ((2 * 0 + 1) ^ 3) with 1. lia.
Qed.

(** C10: with shell radius 0, [neighbourIndices] returns exactly the
    basisCount indices of the site's own cell in ascending order, which is
    what [indicesFromCell] yields for the cell that [indexToCell] decodes;
    and for any shell radius the length of the result is a multiple of
    basisCount that does not exceed (2s+1)^3 * basisCount. *)
Theorem neighbourIndices_zero_shell (fuel : nat) (m : LatticeMap)
        (Ra Rb Rc index : Z) (g : Buffer) :
  valid_map m Ra Rb Rc -> buffer_ready m g ->
  0 <= index < Ra * Rb * Rc * n_basis_ m ->
  enough_fuel Ra Rb Rc 0 fuel ->
  (exists i j k r g1 nbs g2,
      indexToCell fuel m index = Ok (i, j, k)
      /\ indicesFromCell m i j k g = Ok (r, g1)
      /\ neighbourIndices fuel m index 0 g = Ok (nbs, g2)
      /\ nbs = deref r g1
      /\ nbs = map (fun l => ((i * Rb + j) * Rc + k) * n_basis_ m + l)
                   (zrange 0 (Z.to_nat (n_basis_ m)))
      /\ length nbs = Z.to_nat (n_basis_ m)
      /\ StronglySorted Z.lt nbs)
  /\ (forall s, shell_fits (n_basis_ m) Ra Rb Rc s ->
                enough_fuel Ra Rb Rc s fuel ->
                exists nbs g2 q,
                  neighbourIndices fuel m index s g = Ok (nbs, g2)
                  /\ 0 <= q
                  /\ Z.of_nat (length nbs) = q * n_basis_ m
                  /\ Z.of_nat (length nbs) <= (2 * s + 1) ^ 3 * n_basis_ m).
Proof.
  intros V Hg Hidx Hfuel.
  pose proof (valid_basis _ _ _ _ V) as Hnb.
  split.
  - destruct Hfuel as (Fa & Fb & Fc & F0).
    pose proof (direct_decode_facts (n_basis_ m) Ra Rb Rc index Hnb
                  (valid_Ra _ _ _ _ V) (valid_Rb _ _ _ _ V)
                  (valid_Rc _ _ _ _ V) Hidx) as D.
    pose proof (indexToCell_ok fuel m Ra Rb Rc index V Hidx Fa Fb Fc) as E.
    destruct (neighbourIndices_ok fuel m Ra Rb Rc index 0 g V Hg Hidx
                (shell_fits_zero m Ra Rb Rc V)
                (conj Fa (conj Fb (conj Fc F0)))) as (g2 & En & _).
    destruct (direct_decode (n_basis_ m) Rb Rc index) as [[i j] k].
    destruct D as (Hi & Hj & Hk & _).
    rewrite neighbour_sites_zero in En by assumption.
    exists i, j, k, tmp_cell_indices_ref, (cell_sites (n_basis_ m) Rb Rc i j k),
      (cell_sites (n_basis_ m) Rb Rc i j k), g2.
    split; [exact E|].
    split; [apply (indicesFromCell_ok m Ra Rb Rc i j k g); assumption|].
    split; [exact En|].
    split; [reflexivity|].
    split; [reflexivity|].
    split; [apply cell_sites_length|apply cell_sites_increasing].
  - intros s Hfits Hfuel_s.
    destruct (neighbourIndices_ok fuel m Ra Rb Rc index s g V Hg Hidx Hfits Hfuel_s)
      as (g2 & En & _).
    destruct Hfits as (Hs & _).
    destruct (neighbour_sites_length (n_basis_ m) Ra Rb Rc
                (periodic_at m 0) (periodic_at m 1) (periodic_at m 2) s
                (direct_decode (n_basis_ m) Rb Rc index)) as (q & Bq & Eq);
      [lia|exact Hs|].
    eexists _, g2, q. split; [exact En|].
    split; [lia|]. split; [exact Eq|].
    rewrite Eq. apply Z.mul_le_mono_nonneg_r; lia.
Qed.

Lemma neighbourIndices_zero_shell_witness :
  exists nbs g2, neighbourIndices 5 lattice_2x3x4 47 0 [0; 0] = Ok (nbs, g2)
                 /\ nbs = [46; 47].
Proof.
  destruct (neighbourIndices_zero_shell 5 lattice_2x3x4 2 3 4 47 [0; 0])
    as [(i & j & k & r & g1 & nbs & g2 & _ & _ & E & _) _].
  - valid_instance.
  - reflexivity.
  - cbn. lia.
  - unfold enough_fuel. cbn. lia.
  - exists nbs, g2. split; [exact E|].
    cbv in E. injection E as <- <-. reflexivity.
Defined.

(** *** Which candidates survive *)

Lemma shell_range_In (c s y : Z) :
  0 <= s -> (In y (shell_range c s) <-> c - s <= y <= c + s).
Proof.
  intros Hs. unfold shell_range. rewrite zrange_In. lia.
Qed.

Lemma neighbour_sites_In (nb Ra Rb Rc : Z) (pa pb pc : bool) (s ci cj ck x : Z) :
  In x (neighbour_sites nb Ra Rb Rc pa pb pc s (ci, cj, ck))
  <-> exists yi yj yk ii jj kk,
        In yi (shell_range ci s) /\ In yj (shell_range cj s)
        /\ In yk (shell_range ck s)
        /\ axis_cell pa Ra yi = Some ii /\ axis_cell pb Rb yj = Some jj
        /\ axis_cell pc Rc yk = Some kk
        /\ In x (cell_sites nb Rb Rc ii jj kk).
Proof.
  unfold neighbour_sites. rewrite in_flat_map. split.
  - intros (yi & Hyi & H).
    destruct (axis_cell pa Ra yi) as [ii|] eqn:Ei; [|contradiction].
    apply in_flat_map in H. destruct H as (yj & Hyj & H).
    destruct (axis_cell pb Rb yj) as [jj|] eqn:Ej; [|contradiction].
    apply in_flat_map in H. destruct H as (yk & Hyk & H).
    destruct (axis_cell pc Rc yk) as [kk|] eqn:Ek; [|contradiction].
    exists yi, yj, yk, ii, jj, kk. repeat split; assumption.
  - intros (yi & yj & yk & ii & jj & kk & Hyi & Hyj & Hyk & Ei & Ej & Ek & H).
    exists yi. split; [exact Hyi|]. rewrite Ei.
    apply in_flat_map. exists yj. split; [exact Hyj|]. rewrite Ej.
    apply in_flat_map. exists yk. split; [exact Hyk|]. rewrite Ek.
    exact H.
Qed.

Lemma axis_cell_periodic (R y : Z) :
  0 < R ->
  axis_cell true R y
  = if (- R <=? y) && (y <? 2 * R) then Some (y mod R) else None.
Proof.
  intros HR. unfold axis_cell.
  destruct (Z.leb_spec (- R) y) as [Hlo|Hlo];
    destruct (Z.ltb_spec y (2 * R)) as [Hhi|Hhi]; cbn [andb];
    destruct (Z.ltb_spec y 0) as [Hneg|Hpos].
  - destruct (Z.geb_spec (y + R) 0) as [_|H]; [|lia].
    destruct (Z.ltb_spec (y + R) R) as [_|H]; [|lia].
    cbn [andb]. f_equal. apply (Z.mod_unique y R (-1)); lia.
  - destruct (Z.geb_spec y R) as [Hge|Hlt].
    + destruct (Z.geb_spec (y - R) 0) as [_|H]; [|lia].
      destruct (Z.ltb_spec (y - R) R) as [_|H]; [|lia].
      cbn [andb]. f_equal. apply (Z.mod_unique y R 1); lia.
    + destruct (Z.geb_spec y 0) as [_|H]; [|lia].
      destruct (Z.ltb_spec y R) as [_|H]; [|lia].
      cbn [andb]. f_equal. symmetry. apply Z.mod_small. lia.
  - lia.
  - destruct (Z.geb_spec y R) as [_|H]; [|lia].
    destruct (Z.geb_spec (y - R) 0) as [_|H]; [|lia].
    destruct (Z.ltb_spec (y - R) R) as [H|_]; [lia|]. reflexivity.
  - destruct (Z.geb_spec (y + R) 0) as [H|_]; [lia|]. reflexivity.
  - lia.
  - lia.
  - lia.
Qed.

Lemma axis_cell_open (R y : Z) :
  axis_cell false R y = if (0 <=? y) && (y <? R) then Some y else None.
Proof.
  unfold axis_cell.
  destruct (Z.geb_spec y 0); destruct (Z.leb_spec 0 y); try lia; reflexivity.
Qed.

(** The three axes of a valid map. *)
Lemma valid_axis (m : LatticeMap) (Ra Rb Rc a : Z) (p : bool) (R : Z) :
  valid_map m Ra Rb Rc ->
  vector_get (repetitions_ m) a = Ok R -> vector_get (periodic_ m) a = Ok p ->
  0 < R <= Int.max_int
  /\ ((a = 0 /\ R = Ra /\ p = periodic_at m 0)
      \/ (a = 1 /\ R = Rb /\ p = periodic_at m 1)
      \/ (a = 2 /\ R = Rc /\ p = periodic_at m 2)).
Proof.
  intros V HR Hp.
  destruct (valid_bounds m Ra Rb Rc V) as (Ba & Bb & Bc & _).
  pose proof (valid_Ra _ _ _ _ V) as HRa.
  pose proof (valid_Rb _ _ _ _ V) as HRb.
  pose proof (valid_Rc _ _ _ _ V) as HRc.
  rewrite (valid_periodic_flags _ _ _ _ V) in Hp.
  rewrite (valid_repetitions _ _ _ _ V) in HR.
  unfold vector_get in HR, Hp.
  destruct (Z.ltb_spec a 0) as [|Ha]; [discriminate|].
  destruct (Z.to_nat a) as [|[|[|n]]] eqn:E; cbn in HR, Hp.
  - injection HR as <-. injection Hp as <-. split; [lia|]. left. repeat split. lia.
  - injection HR as <-. injection Hp as <-. split; [lia|]. right; left. repeat split. lia.
  - injection HR as <-. injection Hp as <-. split; [lia|]. right; right. repeat split. lia.
  - destruct n; discriminate.
Qed.

Lemma direct_decode_encode (nb Ra Rb Rc i j k l : Z) :
  0 < nb -> 0 <= i < Ra -> 0 <= j < Rb -> 0 <= k < Rc -> 0 <= l < nb ->
  0 <= cell_linear Rb Rc i j k * nb + l < Ra * Rb * Rc * nb
  /\ direct_decode nb Rb Rc (cell_linear Rb Rc i j k * nb + l) = (i, j, k).
Proof.
  intros Hnb Hi Hj Hk Hl.
  destruct (cell_linear_bounds Ra Rb Rc i j k Hi Hj Hk) as [_ B].
  assert (B1 : 0 <= cell_linear Rb Rc i j k * nb)
    by (apply Z.mul_nonneg_nonneg; lia).
  assert (B2 : (cell_linear Rb Rc i j k + 1) * nb <= Ra * Rb * Rc * nb)
    by (apply Z.mul_le_mono_nonneg_r; lia).
  assert (Hx : 0 <= cell_linear Rb Rc i j k * nb + l < Ra * Rb * Rc * nb) by lia.
  split; [exact Hx|].
  pose proof (direct_decode_facts nb Ra Rb Rc _ Hnb ltac:(lia) ltac:(lia) ltac:(lia) Hx) as D.
  destruct (direct_decode nb Rb Rc (cell_linear Rb Rc i j k * nb + l)) as [[i' j'] k'].
  destruct D as (Hi' & Hj' & Hk' & _ & Hlaw & Hl').
  destruct (mapping_law_injective nb Rb Rc i j k l i' j' k' _ Hj Hk Hl Hj' Hk' Hl' Hlaw)
    as (-> & -> & -> & _).
  reflexivity.
Qed.

Lemma decoded_cell (fuel : nat) (m : LatticeMap) (Ra Rb Rc index ci cj ck : Z) :
  valid_map m Ra Rb Rc ->
  0 <= index < Ra * Rb * Rc * n_basis_ m ->
  enough_fuel Ra Rb Rc 0 fuel ->
  indexToCell fuel m index = Ok (ci, cj, ck) ->
  direct_decode (n_basis_ m) Rb Rc index = (ci, cj, ck)
  /\ 0 <= ci < Ra /\ 0 <= cj < Rb /\ 0 <= ck < Rc.
Proof.
  intros V Hidx (Fa & Fb & Fc & _) E.
  rewrite (indexToCell_ok fuel m Ra Rb Rc index V Hidx Fa Fb Fc) in E.
  assert (E' : direct_decode (n_basis_ m) Rb Rc index = (ci, cj, ck)) by congruence.
  clear E. rename E' into E.
  pose proof (direct_decode_facts (n_basis_ m) Ra Rb Rc index
                (valid_basis _ _ _ _ V) (valid_Ra _ _ _ _ V)
                (valid_Rb _ _ _ _ V) (valid_Rc _ _ _ _ V) Hidx) as D.
  rewrite E in D. destruct D as (Hi & Hj & Hk & _).
  repeat split; try assumption; lia.
Qed.

Lemma enough_fuel_zero (Ra Rb Rc s : Z) (fuel : nat) :
  0 <= s -> enough_fuel Ra Rb Rc s fuel -> enough_fuel Ra Rb Rc 0 fuel.
Proof. unfold enough_fuel. lia. Qed.

Lemma candidate_in_range (R c s d : Z) :
  0 <= s -> R + s <= Int.max_int -> 0 <= c < R -> - s <= d <= s ->
  Int.in_range (c + d).
Proof.
  unfold Int.in_range, Int.max_int, Int.min_int. lia.
Qed.

(** What the enumeration emits, in terms of the decisions of
    [axis_candidate] on the three axes. *)
Lemma neighbourIndices_members (fuel : nat) (m : LatticeMap)
      (Ra Rb Rc index s ci cj ck : Z) (g : Buffer) :
  valid_map m Ra Rb Rc -> buffer_ready m g ->
  0 <= index < Ra * Rb * Rc * n_basis_ m ->
  shell_fits (n_basis_ m) Ra Rb Rc s -> enough_fuel Ra Rb Rc s fuel ->
  indexToCell fuel m index = Ok (ci, cj, ck) ->
  exists nbs g',
    neighbourIndices fuel m index s g = Ok (nbs, g')
    /\ forall x,
        In x nbs
        <-> exists di dj dk ii jj kk l,
              - s <= di <= s /\ - s <= dj <= s /\ - s <= dk <= s
              /\ axis_candidate m 0 (ci + di) = Ok (Some ii)
              /\ axis_candidate m 1 (cj + dj) = Ok (Some jj)
              /\ axis_candidate m 2 (ck + dk) = Ok (Some kk)
              /\ 0 <= l < n_basis_ m
              /\ x = ((ii * Rb + jj) * Rc + kk) * n_basis_ m + l.
Proof.
  intros V Hg Hidx Hfits Hfuel Ecell.
  destruct (neighbourIndices_ok fuel m Ra Rb Rc index s g V Hg Hidx Hfits Hfuel)
    as (g' & En & _).
  destruct Hfits as (Hs & Fa & Fb & Fc & _).
  destruct (decoded_cell fuel m Ra Rb Rc index ci cj ck V Hidx
              (enough_fuel_zero _ _ _ _ _ Hs Hfuel) Ecell) as (D & Hci & Hcj & Hck).
  rewrite D in En.
  destruct (valid_bounds m Ra Rb Rc V) as (Ba & Bb & Bc & _).
  pose proof (valid_Ra _ _ _ _ V) as HRa.
  pose proof (valid_Rb _ _ _ _ V) as HRb.
  pose proof (valid_Rc _ _ _ _ V) as HRc.
  assert (Pa : vector_get (periodic_ m) 0 = Ok (periodic_at m 0))
    by (rewrite (valid_periodic_flags _ _ _ _ V) at 1; reflexivity).
  assert (Pb : vector_get (periodic_ m) 1 = Ok (periodic_at m 1))
    by (rewrite (valid_periodic_flags _ _ _ _ V) at 1; reflexivity).
  assert (Pc : vector_get (periodic_ m) 2 = Ok (periodic_at m 2))
    by (rewrite (valid_periodic_flags _ _ _ _ V) at 1; reflexivity).
  assert (Qa : vector_get (repetitions_ m) 0 = Ok Ra)
    by (rewrite (valid_repetitions _ _ _ _ V); reflexivity).
  assert (Qb : vector_get (repetitions_ m) 1 = Ok Rb)
    by (rewrite (valid_repetitions _ _ _ _ V); reflexivity).
  assert (Qc : vector_get (repetitions_ m) 2 = Ok Rc)
    by (rewrite (valid_repetitions _ _ _ _ V); reflexivity).
  eexists _, g'. split; [exact En|].
  intros x. rewrite neighbour_sites_In. split.
  - intros (yi & yj & yk & ii & jj & kk & Hyi & Hyj & Hyk & Ei & Ej & Ek & Hx).
    apply shell_range_In in Hyi; [|exact Hs].
    apply shell_range_In in Hyj; [|exact Hs].
    apply shell_range_In in Hyk; [|exact Hs].
    apply cell_sites_In in Hx. destruct Hx as (l & Hl & ->).
    exists (yi - ci), (yj - cj), (yk - ck), ii, jj, kk, l.
    replace (ci + (yi - ci)) with yi by ring.
    replace (cj + (yj - cj)) with yj by ring.
    replace (ck + (yk - ck)) with yk by ring.
    rewrite (axis_candidate_ok m 0 _ Ra yi Pa Qa)
      by (try lia; replace yi with (ci + (yi - ci)) by ring;
          apply (candidate_in_range Ra ci s); lia).
    rewrite (axis_candidate_ok m 1 _ Rb yj Pb Qb)
      by (try lia; replace yj with (cj + (yj - cj)) by ring;
          apply (candidate_in_range Rb cj s); lia).
    rewrite (axis_candidate_ok m 2 _ Rc yk Pc Qc)
      by (try lia; replace yk with (ck + (yk - ck)) by ring;
          apply (candidate_in_range Rc ck s); lia).
    rewrite Ei, Ej, Ek. unfold cell_linear.
    repeat split; lia.
  - intros (di & dj & dk & ii & jj & kk & l & Hdi & Hdj & Hdk & Ei & Ej & Ek & Hl & ->).
    rewrite (axis_candidate_ok m 0 _ Ra _ Pa Qa) in Ei
      by (try lia; apply (candidate_in_range Ra ci s); lia).
    rewrite (axis_candidate_ok m 1 _ Rb _ Pb Qb) in Ej
      by (try lia; apply (candidate_in_range Rb cj s); lia).
    rewrite (axis_candidate_ok m 2 _ Rc _ Pc Qc) in Ek
      by (try lia; apply (candidate_in_range Rc ck s); lia).
    injection Ei as Ei. injection Ej as Ej. injection Ek as Ek.
    exists (ci + di), (cj + dj), (ck + dk), ii, jj, kk.
    rewrite !shell_range_In by exact Hs.
    repeat split; try lia; try assumption.
    apply cell_sites_In. exists l. split; [exact Hl|reflexivity].
Qed.

(** *** Periodic and open axes: main results *)

(** C4 (as stated, refuted): on the one-cell lattice with three periodic
    axes and shell radius 2, the candidate at offset -2 is moved once, to
    -1, and dropped; the enumeration returns 27 entries, not the
    (2*2+1)^3 = 125 that wrapping every candidate into [0, R) would give. *)
Lemma full_wraparound_counterexample :
  axis_candidate periodic_point 0 (0 + -2) = Ok None
  /\ neighbourIndices 6 periodic_point 0 2 [0] = Ok (repeat 0 27, [0])
  /\ length (repeat 0 27) <> Z.to_nat ((2 * 2 + 1) ^ 3 * n_basis_ periodic_point).
Proof.
  split; [reflexivity|]. split; [vm_compute; reflexivity|].
  vm_compute. discriminate.
Qed.

(** C4 (amended): on a periodic axis with repetition count R the code moves
    a candidate by one repetition count at most.  A candidate in [-R, 2R)
    lands on (c+di) mod R and is kept, any other candidate is dropped; when
    s <= R every candidate of the axis is kept; and every cell whose three
    candidates are kept contributes its basisCount indices to the output of
    [neighbourIndices]. *)
Theorem periodic_axis_single_wrap (fuel : nat) (m : LatticeMap)
        (Ra Rb Rc index s ci cj ck : Z) (g : Buffer) :
  valid_map m Ra Rb Rc -> buffer_ready m g ->
  0 <= index < Ra * Rb * Rc * n_basis_ m ->
  shell_fits (n_basis_ m) Ra Rb Rc s -> enough_fuel Ra Rb Rc s fuel ->
  indexToCell fuel m index = Ok (ci, cj, ck) ->
  (forall a R y,
      vector_get (repetitions_ m) a = Ok R ->
      vector_get (periodic_ m) a = Ok true ->
      Int.in_range y ->
      axis_candidate m a y
      = Ok (if (- R <=? y) && (y <? 2 * R) then Some (y mod R) else None))
  /\ (forall a R c d,
         vector_get (repetitions_ m) a = Ok R ->
         vector_get (periodic_ m) a = Ok true ->
         s <= R -> 0 <= c < R -> - s <= d <= s ->
         axis_candidate m a (c + d) = Ok (Some ((c + d) mod R)))
  /\ exists nbs g',
      neighbourIndices fuel m index s g = Ok (nbs, g')
      /\ forall di dj dk ii jj kk,
          - s <= di <= s -> - s <= dj <= s -> - s <= dk <= s ->
          axis_candidate m 0 (ci + di) = Ok (Some ii) ->
          axis_candidate m 1 (cj + dj) = Ok (Some jj) ->
          axis_candidate m 2 (ck + dk) = Ok (Some kk) ->
          forall l, 0 <= l < n_basis_ m ->
                    In (((ii * Rb + jj) * Rc + kk) * n_basis_ m + l) nbs.
Proof.
  intros V Hg Hidx Hfits Hfuel Ecell.
  assert (Hwrap : forall a R y,
             vector_get (repetitions_ m) a = Ok R ->
             vector_get (periodic_ m) a = Ok true ->
             Int.in_range y ->
             axis_candidate m a y
             = Ok (if (- R <=? y) && (y <? 2 * R) then Some (y mod R) else None)).
  { intros a R y HR Hp Hy.
    destruct (valid_axis m Ra Rb Rc a true R V HR Hp) as [HRb' _].
    rewrite (axis_candidate_ok m a true R y Hp HR HRb' Hy).
    rewrite axis_cell_periodic by lia. reflexivity. }
  split; [exact Hwrap|]. split.
  - intros a R c d HR Hp HsR Hc Hd.
    destruct (valid_axis m Ra Rb Rc a true R V HR Hp) as [HRb' Haxis].
    rewrite (Hwrap a R (c + d) HR Hp).
    + destruct (Z.leb_spec (- R) (c + d)) as [_|H]; [|lia].
      destruct (Z.ltb_spec (c + d) (2 * R)) as [_|H]; [|lia].
      reflexivity.
    + destruct Hfits as (Hs & Fa & Fb & Fc & _).
      apply (candidate_in_range R c s d); lia.
  - destruct (neighbourIndices_members fuel m Ra Rb Rc index s ci cj ck g
                V Hg Hidx Hfits Hfuel Ecell) as (nbs & g' & En & Hmem).
    exists nbs, g'. split; [exact En|].
    intros di dj dk ii jj kk Hdi Hdj Hdk Ei Ej Ek l Hl.
    apply Hmem. exists di, dj, dk, ii, jj, kk, l.
    repeat split; try assumption; lia.
Qed.

Lemma periodic_axis_single_wrap_witness :
  exists nbs g',
    neighbourIndices 4 ring_3 0 1 [0] = Ok (nbs, g') /\ In 2 nbs.
Proof.
  destruct (periodic_axis_single_wrap 4 ring_3 3 1 1 0 1 0 0 0 [0])
    as (_ & _ & nbs & g' & En & H).
  - valid_instance.
  - reflexivity.
  - cbn. lia.
  - unfold shell_fits, Int.max_int. cbn. lia.
  - unfold enough_fuel. cbn. lia.
  - reflexivity.
  - exists nbs, g'. split; [exact En|].
    exact (H (-1) 0 0 2 0 0 ltac:(lia) ltac:(lia) ltac:(lia)
             eq_refl eq_refl eq_refl 0 ltac:(cbn; lia)).
Defined.

Lemma flat_map_length_le_skip {A : Type} (f : A -> list Z) (B : Z) (xs : list A)
      (y : A) :
  0 <= B -> In y xs -> f y = [] ->
  (forall x, In x xs -> Z.of_nat (length (f x)) <= B) ->
  Z.of_nat (length (flat_map f xs)) <= B * Z.of_nat (length xs) - B.
Proof.
  intros HB. induction xs as [|a t IH]; intros Hy Hnil Hall; [contradiction|].
  cbn [flat_map length]. rewrite length_app, Nat2Z.inj_add, Nat2Z.inj_succ.
  destruct Hy as [->|Hy].
  - rewrite Hnil. cbn [length].
    assert (Z.of_nat (length (flat_map f t)) <= B * Z.of_nat (length t)).
    { apply flat_map_length_le; [exact HB|].
      intros x Hx. apply Hall. right. exact Hx. }
    lia.
  - assert (H1 := Hall a (or_introl eq_refl)).
    assert (H2 : Z.of_nat (length (flat_map f t)) <= B * Z.of_nat (length t) - B).
    { apply IH; [exact Hy|exact Hnil|].
      intros x Hx. apply Hall. right. exact Hx. }
    lia.
Qed.

(** A level of the enumeration with a dropped candidate stays one share
    below its full size. *)
Lemma axis_emit_length_pruned (p : bool) (R B c s y : Z) (emit : Z -> list Z) :
  0 <= s -> 0 <= B -> (forall cc, Z.of_nat (length (emit cc)) <= B) ->
  c - s <= y <= c + s -> axis_cell p R y = None ->
  Z.of_nat (length (flat_map (fun x => match axis_cell p R x with
                                       | None => []
                                       | Some cc => emit cc
                                       end) (shell_range c s)))
  <= B * (2 * s + 1) - B.
Proof.
  intros Hs HB Hemit Hy Hnone. rewrite <- (shell_range_length c s Hs).
  apply (flat_map_length_le_skip _ B (shell_range c s) y).
  - exact HB.
  - apply shell_range_In; assumption.
  - rewrite Hnone. reflexivity.
  - intros x _. destruct (axis_cell p R x); [apply Hemit|cbn [length]; lia].
Qed.

(** C5: on a non-periodic axis a candidate outside [0, R) is skipped, and
    a candidate inside is used as it is (no clamping).  The list that
    [neighbourIndices] returns is exactly the concatenation, in loop order,
    of the index lists of the candidate cells kept on all three axes: an
    index is in the list if and only if it belongs to such a cell, every
    index of the list decodes (by [indexToCell]) to a cell inside the grid
    whose coordinate on each non-periodic axis is the unmodified candidate
    c + d with d in [-s, s], and as soon as one candidate of a non-periodic
    axis falls outside [0, R) the list is shorter than the unpruned volume
    (2s+1)^3 * basisCount. *)
Theorem open_axis_pruning (fuel : nat) (m : LatticeMap)
        (Ra Rb Rc index s ci cj ck : Z) (g : Buffer) :
  valid_map m Ra Rb Rc -> buffer_ready m g ->
  0 <= index < Ra * Rb * Rc * n_basis_ m ->
  shell_fits (n_basis_ m) Ra Rb Rc s -> enough_fuel Ra Rb Rc s fuel ->
  indexToCell fuel m index = Ok (ci, cj, ck) ->
  (forall a R y,
      vector_get (repetitions_ m) a = Ok R ->
      vector_get (periodic_ m) a = Ok false ->
      Int.in_range y ->
      axis_candidate m a y = Ok (if (0 <=? y) && (y <? R) then Some y else None))
  /\ (forall a R y,
         vector_get (repetitions_ m) a = Ok R ->
         Int.in_range y ->
         axis_candidate m a y = Ok (axis_cell (periodic_at m (Z.to_nat a)) R y))
  /\ exists nbs g',
      neighbourIndices fuel m index s g = Ok (nbs, g')
      /\ nbs
         = flat_map (fun i =>
             match axis_cell (periodic_at m 0) Ra i with
             | None => []
             | Some ii =>
                 flat_map (fun j =>
                   match axis_cell (periodic_at m 1) Rb j with
                   | None => []
                   | Some jj =>
                       flat_map (fun k =>
                         match axis_cell (periodic_at m 2) Rc k with
                         | None => []
                         | Some kk =>
                             map (fun l => ((ii * Rb + jj) * Rc + kk) * n_basis_ m + l)
                                 (zrange 0 (Z.to_nat (n_basis_ m)))
                         end) (zrange (ck - s) (Z.to_nat (2 * s + 1)))
                   end) (zrange (cj - s) (Z.to_nat (2 * s + 1)))
             end) (zrange (ci - s) (Z.to_nat (2 * s + 1)))
      /\ (forall x,
             In x nbs
             <-> exists di dj dk i j k l,
                   - s <= di <= s /\ - s <= dj <= s /\ - s <= dk <= s
                   /\ axis_candidate m 0 (ci + di) = Ok (Some i)
                   /\ axis_candidate m 1 (cj + dj) = Ok (Some j)
                   /\ axis_candidate m 2 (ck + dk) = Ok (Some k)
                   /\ 0 <= l < n_basis_ m
                   /\ x = ((i * Rb + j) * Rc + k) * n_basis_ m + l)
      /\ (forall x,
             In x nbs ->
             0 <= x < Ra * Rb * Rc * n_basis_ m
             /\ exists i j k di dj dk,
                 indexToCell fuel m x = Ok (i, j, k)
                 /\ 0 <= i < Ra /\ 0 <= j < Rb /\ 0 <= k < Rc
                 /\ - s <= di <= s /\ - s <= dj <= s /\ - s <= dk <= s
                 /\ axis_candidate m 0 (ci + di) = Ok (Some i)
                 /\ axis_candidate m 1 (cj + dj) = Ok (Some j)
                 /\ axis_candidate m 2 (ck + dk) = Ok (Some k)
                 /\ (vector_get (periodic_ m) 0 = Ok false -> i = ci + di)
                 /\ (vector_get (periodic_ m) 1 = Ok false -> j = cj + dj)
                 /\ (vector_get (periodic_ m) 2 = Ok false -> k = ck + dk))
      /\ (forall d,
             - s <= d <= s ->
             (vector_get (periodic_ m) 0 = Ok false /\ ~ 0 <= ci + d < Ra)
             \/ (vector_get (periodic_ m) 1 = Ok false /\ ~ 0 <= cj + d < Rb)
             \/ (vector_get (periodic_ m) 2 = Ok false /\ ~ 0 <= ck + d < Rc) ->
             Z.of_nat (length nbs) < (2 * s + 1) ^ 3 * n_basis_ m).
Proof.
  intros V Hg Hidx Hfits Hfuel Ecell.
  pose proof (valid_basis _ _ _ _ V) as Hnb.
  pose proof (valid_Ra _ _ _ _ V) as HRa.
  pose proof (valid_Rb _ _ _ _ V) as HRb.
  pose proof (valid_Rc _ _ _ _ V) as HRc.
  destruct (valid_bounds m Ra Rb Rc V) as (Ba & Bb & Bc & _).
  assert (Pa : vector_get (periodic_ m) 0 = Ok (periodic_at m 0))
    by (rewrite (valid_periodic_flags _ _ _ _ V) at 1; reflexivity).
  assert (Pb : vector_get (periodic_ m) 1 = Ok (periodic_at m 1))
    by (rewrite (valid_periodic_flags _ _ _ _ V) at 1; reflexivity).
  assert (Pc : vector_get (periodic_ m) 2 = Ok (periodic_at m 2))
    by (rewrite (valid_periodic_flags _ _ _ _ V) at 1; reflexivity).
  assert (Qa : vector_get (repetitions_ m) 0 = Ok Ra)
    by (rewrite (valid_repetitions _ _ _ _ V); reflexivity).
  assert (Qb : vector_get (repetitions_ m) 1 = Ok Rb)
    by (rewrite (valid_repetitions _ _ _ _ V); reflexivity).
  assert (Qc : vector_get (repetitions_ m) 2 = Ok Rc)
    by (rewrite (valid_repetitions _ _ _ _ V); reflexivity).
  assert (Hopen : forall a R y,
             vector_get (repetitions_ m) a = Ok R ->
             vector_get (periodic_ m) a = Ok false ->
             Int.in_range y ->
             axis_candidate m a y
             = Ok (if (0 <=? y) && (y <? R) then Some y else None)).
  { intros a R y HR Hp Hy.
    destruct (valid_axis m Ra Rb Rc a false R V HR Hp) as [HRb' _].
    rewrite (axis_candidate_ok m a false R y Hp HR HRb' Hy).
    rewrite axis_cell_open. reflexivity. }
  split; [exact Hopen|]. split.
  { intros a R y HR Hy.
    assert (Ha : 0 <= a < 3).
    { rewrite (valid_repetitions _ _ _ _ V) in HR. unfold vector_get in HR.
      destruct (Z.ltb_spec a 0) as [|Ha]; [discriminate|].
      destruct (Z.to_nat a) as [|[|[|n]]] eqn:E; cbn in HR; try lia.
      destruct n; discriminate. }
    assert (Hp : vector_get (periodic_ m) a = Ok (periodic_at m (Z.to_nat a))).
    { unfold periodic_at. rewrite <- (Z2Nat.id a) at 1 by lia.
      apply vector_get_nth. rewrite (valid_periodic _ _ _ _ V). lia. }
    destruct (valid_axis m Ra Rb Rc a _ R V HR Hp) as [HRb' _].
    apply axis_candidate_ok; assumption. }
  destruct (neighbourIndices_ok fuel m Ra Rb Rc index s g V Hg Hidx Hfits Hfuel)
    as (g' & En & _).
  destruct (neighbourIndices_members fuel m Ra Rb Rc index s ci cj ck g
              V Hg Hidx Hfits Hfuel Ecell) as (nbs0 & g0 & En0 & Hmem).
  pose proof Hfits as (Hs & Fa & Fb & Fc & _).
  destruct (decoded_cell fuel m Ra Rb Rc index ci cj ck V Hidx
              (enough_fuel_zero _ _ _ _ _ Hs Hfuel) Ecell) as (D & Hci & Hcj & Hck).
  rewrite D in En. rewrite En in En0. injection En0 as <- <-.
  eexists _, g'. split; [exact En|]. split; [reflexivity|].
  split; [exact Hmem|]. split.
  - intros x Hx. apply Hmem in Hx.
    destruct Hx as (di & dj & dk & ii & jj & kk & l & Hdi & Hdj & Hdk
                    & Ei & Ej & Ek & Hl & ->).
    assert (Ya : Int.in_range (ci + di)) by (apply (candidate_in_range Ra ci s); lia).
    assert (Yb : Int.in_range (cj + dj)) by (apply (candidate_in_range Rb cj s); lia).
    assert (Yc : Int.in_range (ck + dk)) by (apply (candidate_in_range Rc ck s); lia).
    assert (Ci : axis_cell (periodic_at m 0) Ra (ci + di) = Some ii).
    { rewrite (axis_candidate_ok m 0 _ Ra _ Pa Qa) in Ei by (try lia; exact Ya).
      congruence. }
    assert (Cj : axis_cell (periodic_at m 1) Rb (cj + dj) = Some jj).
    { rewrite (axis_candidate_ok m 1 _ Rb _ Pb Qb) in Ej by (try lia; exact Yb).
      congruence. }
    assert (Ck : axis_cell (periodic_at m 2) Rc (ck + dk) = Some kk).
    { rewrite (axis_candidate_ok m 2 _ Rc _ Pc Qc) in Ek by (try lia; exact Yc).
      congruence. }
    pose proof (axis_cell_bounds _ _ _ _ Ci) as Hii.
    pose proof (axis_cell_bounds _ _ _ _ Cj) as Hjj.
    pose proof (axis_cell_bounds _ _ _ _ Ck) as Hkk.
    destruct (direct_decode_encode (n_basis_ m) Ra Rb Rc ii jj kk l
                Hnb Hii Hjj Hkk Hl) as [Hx Hdec].
    unfold cell_linear in Hx, Hdec.
    split; [exact Hx|].
    exists ii, jj, kk, di, dj, dk.
    split.
    { destruct Hfuel as (Ea & Eb & Ec & _).
      rewrite (indexToCell_ok fuel m Ra Rb Rc _ V Hx Ea Eb Ec).
      rewrite Hdec. reflexivity. }
    repeat split; try lia; try assumption.
    + intros Hp. rewrite Pa in Hp. injection Hp as Hp. rewrite Hp in Ci.
      rewrite axis_cell_open in Ci.
      destruct ((0 <=? ci + di) && (ci + di <? Ra)); congruence.
    + intros Hp. rewrite Pb in Hp. injection Hp as Hp. rewrite Hp in Cj.
      rewrite axis_cell_open in Cj.
      destruct ((0 <=? cj + dj) && (cj + dj <? Rb)); congruence.
    + intros Hp. rewrite Pc in Hp. injection Hp as Hp. rewrite Hp in Ck.
      rewrite axis_cell_open in Ck.
      destruct ((0 <=? ck + dk) && (ck + dk <? Rc)); congruence.
  - intros d Hd Hpruned.
    change (Z.of_nat (length (neighbour_sites (n_basis_ m) Ra Rb Rc
                                (periodic_at m 0) (periodic_at m 1) (periodic_at m 2)
                                s (ci, cj, ck)))
            < (2 * s + 1) ^ 3 * n_basis_ m).
    unfold neighbour_sites.
    remember (2 * s + 1) as w eqn:Hw.
    remember (n_basis_ m) as nb eqn:Hnbeq.
    assert (Hw1 : 1 <= w) by lia.
    assert (Hnw : 1 <= nb * w) by nia.
    assert (Hnww : 1 <= nb * w * w) by nia.
    assert (Lk : forall ii jj cc,
               Z.of_nat (length (cell_sites nb Rb Rc ii jj cc)) <= nb).
    { intros. rewrite cell_sites_length. lia. }
    assert (Lj : forall ii jj,
               Z.of_nat (length (flat_map (fun k =>
                            match axis_cell (periodic_at m 2) Rc k with
                            | None => []
                            | Some kk => cell_sites nb Rb Rc ii jj kk
                            end) (shell_range ck s)))
               <= nb * w).
    { intros. rewrite Hw. apply axis_emit_length; try lia. apply Lk. }
    assert (Li : forall ii,
               Z.of_nat (length (flat_map (fun j =>
                  match axis_cell (periodic_at m 1) Rb j with
                  | None => []
                  | Some jj =>
                      flat_map (fun k =>
                        match axis_cell (periodic_at m 2) Rc k with
                        | None => []
                        | Some kk => cell_sites nb Rb Rc ii jj kk
                        end) (shell_range ck s)
                  end) (shell_range cj s)))
               <= nb * w * w).
    { intros. rewrite Hw at 2. apply axis_emit_length; try lia. intros jj. apply Lj. }
    replace (w ^ 3 * nb) with (nb * w * w * w) by ring.
    destruct Hpruned as [[Hp Hout]|[[Hp Hout]|[Hp Hout]]].
    + rewrite Pa in Hp. injection Hp as Hp.
      assert (Hnone : axis_cell (periodic_at m 0) Ra (ci + d) = None).
      { rewrite Hp, axis_cell_open.
        destruct (Z.leb_spec 0 (ci + d)); destruct (Z.ltb_spec (ci + d) Ra);
          cbn [andb]; try reflexivity. lia. }
      pose proof (axis_emit_length_pruned _ Ra (nb * w * w) ci s (ci + d) _
                    Hs ltac:(lia) Li ltac:(lia) Hnone) as H.
      rewrite <- Hw in H. lia.
    + rewrite Pb in Hp. injection Hp as Hp.
      assert (Hnone : axis_cell (periodic_at m 1) Rb (cj + d) = None).
      { rewrite Hp, axis_cell_open.
        destruct (Z.leb_spec 0 (cj + d)); destruct (Z.ltb_spec (cj + d) Rb);
          cbn [andb]; try reflexivity. lia. }
      assert (Li' : forall ii,
                 Z.of_nat (length (flat_map (fun j =>
                    match axis_cell (periodic_at m 1) Rb j with
                    | None => []
                    | Some jj =>
                        flat_map (fun k =>
                          match axis_cell (periodic_at m 2) Rc k with
                          | None => []
                          | Some kk => cell_sites nb Rb Rc ii jj kk
                          end) (shell_range ck s)
                    end) (shell_range cj s)))
                 <= nb * w * w - nb * w).
      { intros ii.
        pose proof (axis_emit_length_pruned (periodic_at m 1) Rb (nb * w) cj s (cj + d)
                      (fun jj => flat_map (fun k =>
                          match axis_cell (periodic_at m 2) Rc k with
                          | None => []
                          | Some kk => cell_sites nb Rb Rc ii jj kk
                          end) (shell_range ck s))
                      Hs ltac:(lia) (Lj ii) ltac:(lia) Hnone) as H.
        rewrite <- Hw in H. exact H. }
      assert (HB : 0 <= nb * w * w - nb * w) by nia.
      pose proof (axis_emit_length (periodic_at m 0) Ra (nb * w * w - nb * w) ci s _
                    Hs HB Li') as H.
      rewrite <- Hw in H.
      assert (nb * w * w * w - nb * w * w < nb * w * w * w) by lia.
      assert ((nb * w * w - nb * w) * w = nb * w * w * w - nb * w * w) by ring.
      lia.
    + rewrite Pc in Hp. injection Hp as Hp.
      assert (Hnone : axis_cell (periodic_at m 2) Rc (ck + d) = None).
      { rewrite Hp, axis_cell_open.
        destruct (Z.leb_spec 0 (ck + d)); destruct (Z.ltb_spec (ck + d) Rc);
          cbn [andb]; try reflexivity. lia. }
      assert (Lj' : forall ii jj,
                 Z.of_nat (length (flat_map (fun k =>
                              match axis_cell (periodic_at m 2) Rc k with
                              | None => []
                              | Some kk => cell_sites nb Rb Rc ii jj kk
                              end) (shell_range ck s)))
                 <= nb * w - nb).
      { intros ii jj.
        pose proof (axis_emit_length_pruned (periodic_at m 2) Rc nb ck s (ck + d)
                      (fun kk => cell_sites nb Rb Rc ii jj kk)
                      Hs ltac:(lia) (Lk ii jj) ltac:(lia) Hnone) as H.
        rewrite <- Hw in H. exact H. }
      assert (HB1 : 0 <= nb * w - nb) by nia.
      assert (Li' : forall ii,
                 Z.of_nat (length (flat_map (fun j =>
                    match axis_cell (periodic_at m 1) Rb j with
                    | None => []
                    | Some jj =>
                        flat_map (fun k =>
                          match axis_cell (periodic_at m 2) Rc k with
                          | None => []
                          | Some kk => cell_sites nb Rb Rc ii jj kk
                          end) (shell_range ck s)
                    end) (shell_range cj s)))
                 <= (nb * w - nb) * w).
      { intros ii.
        pose proof (axis_emit_length (periodic_at m 1) Rb (nb * w - nb) cj s
                      (fun jj => flat_map (fun k =>
                          match axis_cell (periodic_at m 2) Rc k with
                          | None => []
                          | Some kk => cell_sites nb Rb Rc ii jj kk
                          end) (shell_range ck s))
                      Hs HB1 (Lj' ii)) as H.
        rewrite <- Hw in H. exact H. }
      assert (HB2 : 0 <= (nb * w - nb) * w) by nia.
      pose proof (axis_emit_length (periodic_at m 0) Ra ((nb * w - nb) * w) ci s _
                    Hs HB2 Li') as H.
      rewrite <- Hw in H.
      assert ((nb * w - nb) * w * w = nb * w * w * w - nb * w * w) by ring.
      lia.
Qed.

Lemma open_axis_pruning_witness :
  axis_candidate open_4x4x4 0 (0 + -1) = Ok None
  /\ exists nbs g',
      neighbourIndices 5 open_4x4x4 0 1 [0] = Ok (nbs, g')
      /\ (forall x, In x nbs -> 0 <= x < 64)
      /\ Z.of_nat (length nbs) < 27.
Proof.
  destruct (open_axis_pruning 5 open_4x4x4 4 4 4 0 1 0 0 0 [0])
    as (Hskip & _ & nbs & g' & En & _ & _ & H & Hfewer).
  - valid_instance.
  - reflexivity.
  - cbn. lia.
  - unfold shell_fits, Int.max_int. cbn. lia.
  - unfold enough_fuel. cbn. lia.
  - reflexivity.
  - split.
    + rewrite (Hskip 0 4 (0 + -1)); [reflexivity|reflexivity|reflexivity|].
      unfold Int.in_range, Int.min_int, Int.max_int. lia.
    + exists nbs, g'. split; [exact En|]. split.
      * intros x Hx. exact (proj1 (H x Hx)).
      * apply (Hfewer (-1)); [lia|]. left. split; [reflexivity|lia].
Defined.

(** The corner cell of an open 4x4x4 grid has 8 neighbour sites with one
    shell, fewer than the 27 of the unpruned volume. *)
Example corner_of_open_grid :
  neighbourIndices 5 open_4x4x4 0 1 [0] = Ok ([0; 1; 4; 5; 16; 17; 20; 21], [21]).
Proof. reflexivity. Qed.

(** One shell around cell (0,0,0) of a ring of three cells wraps to cell 2. *)
Example ring_wraps_once :
  neighbourIndices 4 ring_3 0 1 [0] = Ok ([2; 0; 1], [1]).
Proof. reflexivity. Qed.

(** *** Sorting and compaction *)

Lemma insert_sorted_In (x y : Z) (l : list Z) :
  In y (insert_sorted x l) <-> y = x \/ In y l.
Proof.
  induction l as [|a l IH]; cbn [insert_sorted].
  - cbn. intuition.
  - destruct (x <=? a); cbn [In]; [intuition|].
    rewrite IH. intuition.
Qed.

Lemma insert_sorted_sorted (x : Z) (l : list Z) :
  StronglySorted Z.le l -> StronglySorted Z.le (insert_sorted x l).
Proof.
  induction 1 as [|a l Hs IH Ha]; cbn [insert_sorted].
  - repeat constructor.
  - destruct (Z.leb_spec x a) as [Hle|Hgt].
    + constructor; [constructor; assumption|].
      constructor; [exact Hle|].
      rewrite Forall_forall in Ha |- *. intros y Hy. specialize (Ha y Hy). lia.
    + constructor; [exact IH|].
      rewrite Forall_forall in Ha |- *. intros y Hy.
      apply insert_sorted_In in Hy. destruct Hy as [->|Hy]; [lia|auto].
Qed.

Lemma std_sort_In (x : Z) (l : list Z) : In x (std_sort l) <-> In x l.
Proof.
  induction l as [|a l IH]; cbn [std_sort]; [reflexivity|].
  rewrite insert_sorted_In, IH. cbn [In]. intuition.
Qed.

Lemma std_sort_sorted (l : list Z) : StronglySorted Z.le (std_sort l).
Proof.
  induction l as [|a l IH]; cbn [std_sort]; [constructor|].
  apply insert_sorted_sorted. exact IH.
Qed.

Lemma unique_run_In (x : Z) (l : list Z) : In x (unique_run l) <-> In x l.
Proof.
  induction l as [|a t IH]; [reflexivity|].
  destruct t as [|b t']; [reflexivity|].
  change (unique_run (a :: b :: t'))
    with (if a =? b then unique_run (b :: t') else a :: unique_run (b :: t')).
  destruct (Z.eqb_spec a b) as [->|Hne].
  - rewrite IH. cbn [In]. intuition.
  - cbn [In] in *. rewrite IH. reflexivity.
Qed.

Lemma unique_run_strict (l : list Z) :
  StronglySorted Z.le l -> StronglySorted Z.lt (unique_run l).
Proof.
  induction 1 as [|a t Hs IH Ha]; [constructor|].
  destruct t as [|b t']; [repeat constructor|].
  change (unique_run (a :: b :: t'))
    with (if a =? b then unique_run (b :: t') else a :: unique_run (b :: t')).
  destruct (Z.eqb_spec a b) as [->|Hne]; [exact IH|].
  constructor; [exact IH|].
  apply Forall_forall. intros y Hy. rewrite unique_run_In in Hy.
  inversion Hs as [|? ? _ Hb]; subst.
  rewrite Forall_forall in Ha, Hb.
  assert (Hab : a <= b) by (apply Ha; left; reflexivity).
  destruct Hy as [<-|Hy]; [lia|]. specialize (Hb y Hy). lia.
Qed.

Lemma strict_sorted_NoDup (l : list Z) : StronglySorted Z.lt l -> NoDup l.
Proof.
  induction 1 as [|a t Hs IH Ha]; constructor; [|exact IH].
  intros Hin. rewrite Forall_forall in Ha. specialize (Ha a Hin). lia.
Qed.

(** A strictly ascending sequence is determined by its set of elements. *)
Lemma strict_sorted_ext (l1 : list Z) :
  forall l2, StronglySorted Z.lt l1 -> StronglySorted Z.lt l2 ->
             (forall x, In x l1 <-> In x l2) -> l1 = l2.
Proof.
  induction l1 as [|a t1 IH]; intros l2 H1 H2 Hext.
  - destruct l2 as [|b t2]; [reflexivity|].
    exfalso. exact (proj2 (Hext b) (or_introl eq_refl)).
  - destruct l2 as [|b t2].
    + exfalso. exact (proj1 (Hext a) (or_introl eq_refl)).
    + inversion H1 as [|? ? S1 F1]; subst. inversion H2 as [|? ? S2 F2]; subst.
      rewrite Forall_forall in F1, F2.
      assert (Hab : a = b).
      { destruct (proj1 (Hext a) (or_introl eq_refl)) as [E|Ha]; [congruence|].
        destruct (proj2 (Hext b) (or_introl eq_refl)) as [E|Hb]; [congruence|].
        specialize (F1 b Hb). specialize (F2 a Ha). lia. }
      subst b. f_equal. apply IH; try assumption.
      intros x. split; intros Hx.
      * destruct (proj1 (Hext x) (or_intror Hx)) as [E|H]; [|exact H].
        specialize (F1 x Hx). lia.
      * destruct (proj2 (Hext x) (or_intror Hx)) as [E|H]; [|exact H].
        specialize (F2 x Hx). lia.
Qed.

Lemma push_back_all_app (superset nbs : list Z) :
  push_back_all superset nbs = superset ++ nbs.
Proof.
  unfold push_back_all. revert superset.
  induction nbs as [|x nbs IH]; intros superset; cbn [fold_left].
  - symmetry. apply app_nil_r.
  - rewrite IH, <- app_assoc. reflexivity.
Qed.

Lemma compact_resize (v : list Z) :
  (let '(compacted, new_end) := std_unique v in vector_resize compacted new_end)
  = Ok (unique_run v).
Proof.
  unfold std_unique, vector_resize.
  destruct (Z.ltb_spec (Z.of_nat (length (unique_run v))) 0) as [H|_]; [lia|].
  rewrite Nat2Z.id. f_equal.
  rewrite firstn_app, firstn_all, Nat.sub_diag, firstn_O, app_nil_r.
  rewrite length_app.
  replace (length (unique_run v)
           - (length (unique_run v) + length (skipn (length (unique_run v)) v)))%nat
    with 0%nat by lia.
  apply app_nil_r.
Qed.

(** *** The superset of neighbours *)

Lemma collect_neighbours_ok (fuel : nat) (m : LatticeMap) (Ra Rb Rc : Z)
      (indices : list Z) :
  valid_map m Ra Rb Rc ->
  shell_fits (n_basis_ m) Ra Rb Rc default_shells ->
  enough_fuel Ra Rb Rc default_shells fuel ->
  (forall index, In index indices -> 0 <= index < Ra * Rb * Rc * n_basis_ m) ->
  forall (superset : list Z) (g : Buffer),
    buffer_ready m g ->
    exists g',
      collect_neighbours fuel m indices superset g
      = Ok (superset
            ++ flat_map (fun index =>
                           neighbour_sites (n_basis_ m) Ra Rb Rc
                             (periodic_at m 0) (periodic_at m 1) (periodic_at m 2)
                             default_shells
                             (direct_decode (n_basis_ m) Rb Rc index)) indices,
            g')
      /\ buffer_ready m g'.
Proof.
  intros V Hfits Hfuel.
  induction indices as [|index rest IH]; intros Hvalid superset g Hg.
  - exists g. cbn [collect_neighbours flat_map]. rewrite app_nil_r.
    split; [reflexivity|exact Hg].
  - cbn [collect_neighbours flat_map].
    destruct (neighbourIndices_ok fuel m Ra Rb Rc index default_shells g V Hg
                (Hvalid index (or_introl eq_refl)) Hfits Hfuel) as (g1 & En & Hg1).
    rewrite En. cbn [bind]. rewrite push_back_all_app.
    match goal with
    | |- context [collect_neighbours fuel m rest ?acc g1] =>
        destruct (IH (fun i Hi => Hvalid i (or_intror Hi)) acc g1 Hg1)
          as (g' & E & Hg')
    end.
    exists g'. rewrite E, <- app_assoc. split; [reflexivity|exact Hg'].
Qed.

Lemma supersetNeighbourIndices_ok (fuel : nat) (m : LatticeMap) (Ra Rb Rc : Z)
      (indices : list Z) (g : Buffer) :
  valid_map m Ra Rb Rc -> buffer_ready m g ->
  shell_fits (n_basis_ m) Ra Rb Rc default_shells ->
  enough_fuel Ra Rb Rc default_shells fuel ->
  (forall index, In index indices -> 0 <= index < Ra * Rb * Rc * n_basis_ m) ->
  exists g',
    supersetNeighbourIndices fuel m indices g
    = Ok (unique_run
            (std_sort
               (flat_map (fun index =>
                            neighbour_sites (n_basis_ m) Ra Rb Rc
                              (periodic_at m 0) (periodic_at m 1) (periodic_at m 2)
                              default_shells
                              (direct_decode (n_basis_ m) Rb Rc index)) indices)),
          g')
    /\ buffer_ready m g'.
Proof.
  intros V Hg Hfits Hfuel Hvalid. unfold supersetNeighbourIndices.
  destruct (collect_neighbours_ok fuel m Ra Rb Rc indices V Hfits Hfuel Hvalid [] g Hg)
    as (g' & E & Hg').
  rewrite E. cbn [bind app].
  exists g'. split; [|exact Hg'].
  match goal with
  | |- context [std_unique ?v] => pose proof (compact_resize v) as C
  end.
  destruct (std_unique _) as [compacted new_end].
  rewrite C. reflexivity.
Qed.

(** C6: for every sequence of valid site indices,
    [supersetNeighbourIndices] returns a strictly ascending sequence
    without repeated values whose elements are exactly those of the
    neighbour lists [neighbourIndices(index, shells = 1)] of the input
    indices; any other input sequence with the same set of indices (the
    input permuted, or with indices repeated) gives the same result. *)
Theorem supersetNeighbourIndices_sorted_union (fuel : nat) (m : LatticeMap)
        (Ra Rb Rc : Z) (indices : list Z) (g : Buffer) :
  valid_map m Ra Rb Rc -> buffer_ready m g ->
  shell_fits (n_basis_ m) Ra Rb Rc default_shells ->
  enough_fuel Ra Rb Rc default_shells fuel ->
  (forall index, In index indices -> 0 <= index < Ra * Rb * Rc * n_basis_ m) ->
  exists r g',
    supersetNeighbourIndices fuel m indices g = Ok (r, g')
    /\ StronglySorted Z.lt r
    /\ NoDup r
    /\ (forall x,
           In x r
           <-> exists index nbs g1,
                 In index indices
                 /\ neighbourIndices fuel m index default_shells g = Ok (nbs, g1)
                 /\ In x nbs)
    /\ (forall indices' g0,
           buffer_ready m g0 ->
           (forall index, In index indices <-> In index indices') ->
           exists g1, supersetNeighbourIndices fuel m indices' g0 = Ok (r, g1)).
Proof.
  intros V Hg Hfits Hfuel Hvalid.
  destruct (supersetNeighbourIndices_ok fuel m Ra Rb Rc indices g
              V Hg Hfits Hfuel Hvalid) as (g' & E & _).
  set (nb_of := fun index =>
                  neighbour_sites (n_basis_ m) Ra Rb Rc
                    (periodic_at m 0) (periodic_at m 1) (periodic_at m 2)
                    default_shells (direct_decode (n_basis_ m) Rb Rc index)) in *.
  exists (unique_run (std_sort (flat_map nb_of indices))), g'.
  split; [exact E|].
  assert (Hsorted : forall l, StronglySorted Z.lt (unique_run (std_sort l)))
    by (intros l; apply unique_run_strict, std_sort_sorted).
  split; [apply Hsorted|].
  split; [apply strict_sorted_NoDup, Hsorted|].
  split.
  - intros x. rewrite unique_run_In, std_sort_In, in_flat_map. split.
    + intros (index & Hin & Hx).
      destruct (neighbourIndices_ok fuel m Ra Rb Rc index default_shells g V Hg
                  (Hvalid index Hin) Hfits Hfuel) as (g1 & En & _).
      exists index, (nb_of index), g1. repeat split; assumption.
    + intros (index & nbs & g1 & Hin & En & Hx).
      destruct (neighbourIndices_ok fuel m Ra Rb Rc index default_shells g V Hg
                  (Hvalid index Hin) Hfits Hfuel) as (g2 & En' & _).
      rewrite En' in En. injection En as <- _.
      exists index. split; assumption.
  - intros indices' g0 Hg0 Hsame.
    destruct (supersetNeighbourIndices_ok fuel m Ra Rb Rc indices' g0
                V Hg0 Hfits Hfuel) as (g1 & E' & _).
    { intros index Hin. apply Hvalid, Hsame, Hin. }
    exists g1. rewrite E'. do 2 f_equal.
    apply strict_sorted_ext; try apply Hsorted.
    intros x. rewrite !unique_run_In, !std_sort_In, !in_flat_map.
    split; intros (index & Hin & Hx); exists index; split; try assumption;
      apply Hsame; assumption.
Qed.

Lemma supersetNeighbourIndices_sorted_union_witness :
  exists g', supersetNeighbourIndices 5 ring_3 [1; 0; 1] [0] = Ok ([0; 1; 2], g').
Proof.
  destruct (supersetNeighbourIndices_sorted_union 5 ring_3 3 1 1 [1; 0; 1] [0])
    as (r & g' & E & _).
  - valid_instance.
  - reflexivity.
  - unfold shell_fits, default_shells, Int.max_int. cbn. lia.
  - unfold enough_fuel, default_shells. cbn. lia.
  - cbn. intros index [<-|[<-|[<-|[]]]]; lia.
  - exists g'. rewrite E. cbv in E. injection E as <- _. reflexivity.
Defined.

(** Duplicates produced by the enumeration disappear in the superset. *)
Example superset_of_overlapping_sites :
  supersetNeighbourIndices 5 open_4x4x4 [0; 0; 1] [0]
  = Ok ([0; 1; 2; 4; 5; 6; 16; 17; 18; 20; 21; 22], [22]).
Proof. reflexivity. Qed.

(** *** Shared storage and validation: main results *)

(** C7 (as stated, refuted): the encoder writes storage shared across
    calls.  Constructing the ring of three cells resizes the shared vector
    (from empty to [0]); encoding cell (1,0,0) then overwrites it with [1];
    and what the reference returned by the call for cell (0,0,0) reads
    changes from [0] to [1] once cell (1,0,0) has been encoded. *)
Lemma shared_buffer_counterexample :
  LatticeMap_ctor 1 [3; 1; 1] [true; false; false] [] = Ok (ring_3, [0])
  /\ indicesFromCell ring_3 1 0 0 [0] = Ok (tmp_cell_indices_ref, [1])
  /\ read_before_and_after ring_3 (0, 0, 0) (1, 0, 0) [0] = Ok (([0], [1]), [1]).
Proof. repeat split. Qed.

(** C7 (amended): [indicesFromCell] writes the basisCount indices of the
    cell into the file-level vector shared by all calls and returns a
    reference to it.  Read directly after the call the reference yields the
    indices of the cell; after a later call for another cell the same
    reference yields the indices of that later cell.  Constructing a map
    resizes the shared vector to basisCount and keeps the three arguments
    unchanged in the constructed value. *)
Theorem indicesFromCell_shares_its_buffer (m : LatticeMap) (Ra Rb Rc : Z)
        (i j k i' j' k' : Z) (g : Buffer) :
  valid_map m Ra Rb Rc -> buffer_ready m g ->
  0 <= i < Ra -> 0 <= j < Rb -> 0 <= k < Rc ->
  0 <= i' < Ra -> 0 <= j' < Rb -> 0 <= k' < Rc ->
  (exists r,
      indicesFromCell m i j k g = Ok (r, cell_sites (n_basis_ m) Rb Rc i j k)
      /\ deref r (cell_sites (n_basis_ m) Rb Rc i j k)
         = cell_sites (n_basis_ m) Rb Rc i j k)
  /\ (exists g2,
         read_before_and_after m (i, j, k) (i', j', k') g
         = Ok ((cell_sites (n_basis_ m) Rb Rc i j k,
                cell_sites (n_basis_ m) Rb Rc i' j' k'), g2))
  /\ (forall g0, exists g1,
         LatticeMap_ctor (n_basis_ m) (repetitions_ m) (periodic_ m) g0 = Ok (m, g1)
         /\ buffer_ready m g1).
Proof.
  intros V Hg Hi Hj Hk Hi' Hj' Hk'.
  pose proof (indicesFromCell_ok m Ra Rb Rc i j k g V Hg Hi Hj Hk) as E1.
  assert (Hg1 : buffer_ready m (cell_sites (n_basis_ m) Rb Rc i j k))
    by apply cell_sites_length.
  pose proof (indicesFromCell_ok m Ra Rb Rc i' j' k' _ V Hg1 Hi' Hj' Hk') as E2.
  split; [|split].
  - exists tmp_cell_indices_ref. split; [exact E1|reflexivity].
  - eexists. unfold read_before_and_after. rewrite E1. cbn [bind].
    rewrite E2. cbn [bind deref]. reflexivity.
  - intros g0. unfold LatticeMap_ctor, vector_resize.
    pose proof (valid_basis _ _ _ _ V) as Hnb.
    destruct (Z.ltb_spec (n_basis_ m) 0) as [H|_]; [lia|].
    cbn [bind]. eexists. split.
    + destruct m. reflexivity.
    + unfold buffer_ready. rewrite length_app, length_firstn, repeat_length. lia.
Qed.

Lemma indicesFromCell_shares_its_buffer_witness :
  exists g2,
    read_before_and_after lattice_2x3x4 (0, 0, 0) (1, 2, 3) [0; 0]
    = Ok (([0; 1], [46; 47]), g2).
Proof.
  destruct (indicesFromCell_shares_its_buffer lattice_2x3x4 2 3 4 0 0 0 1 2 3 [0; 0])
    as (_ & (g2 & E) & _); try lia.
  - valid_instance.
  - reflexivity.
  - exists g2. exact E.
Defined.

(** C8 (as stated, refuted): the constructor validates nothing.  A basis
    count of 0, a non-positive repetition count and arrays that do not have
    three entries are all accepted. *)
Lemma construction_counterexample :
  LatticeMap_ctor 0 [1; 1; 1] [false; false; false] []
  = Ok ({| n_basis_ := 0; repetitions_ := [1; 1; 1];
           periodic_ := [false; false; false] |}, [])
  /\ LatticeMap_ctor 1 [0; -2] [true] []
     = Ok ({| n_basis_ := 1; repetitions_ := [0; -2]; periodic_ := [true] |}, [0]).
Proof. split; reflexivity. Qed.

(** C8 (amended): construction performs no validation.  For every basis
    count that is not negative (0 included) and for all repetition and
    periodicity arrays, whatever their lengths and entries, construction
    succeeds and stores the three arguments unchanged; with a negative
    basis count the only failure is the length error of resizing the shared
    vector. *)
Theorem construction_accepts_any_geometry (n_basis : Z) (repetitions : list Z)
        (periodic : list bool) (g : Buffer) :
  (0 <= n_basis ->
   exists g',
     LatticeMap_ctor n_basis repetitions periodic g
     = Ok ({| n_basis_ := n_basis; repetitions_ := repetitions;
              periodic_ := periodic |}, g')
     /\ length g' = Z.to_nat n_basis)
  /\ (n_basis < 0 ->
      LatticeMap_ctor n_basis repetitions periodic g = Fail (Throw std_length_error)).
Proof.
  unfold LatticeMap_ctor, vector_resize. split; intros H.
  - destruct (Z.ltb_spec n_basis 0) as [H'|_]; [lia|].
    cbn [bind]. eexists. split; [reflexivity|].
    rewrite length_app, length_firstn, repeat_length. lia.
  - destruct (Z.ltb_spec n_basis 0) as [_|H']; [reflexivity|lia].
Qed.

Lemma construction_accepts_any_geometry_witness :
  (exists g',
      LatticeMap_ctor 0 [5; -1] [] [3; 4]
      = Ok ({| n_basis_ := 0; repetitions_ := [5; -1]; periodic_ := [] |}, g'))
  /\ LatticeMap_ctor (-1) [1; 1; 1] [true; true; true] [3; 4]
     = Fail (Throw std_length_error).
Proof.
  split.
  - destruct (proj1 (construction_accepts_any_geometry 0 [5; -1] [] [3; 4]))
      as (g' & E & _); [lia|].
    exists g'. exact E.
  - apply (proj2 (construction_accepts_any_geometry (-1) [1; 1; 1]
                    [true; true; true] [3; 4])). lia.
Defined.

(** C9 (as stated, refuted): with shell radius -1 the call fails, but with
    the length error that the allocation of a result vector of negative
    size throws, which is not an invalid-argument error; the shell radius
    itself is never checked. *)
Lemma negative_shell_counterexample :
  neighbourIndices 4 ring_3 0 (-1) [0] = Fail (Throw std_length_error)
  /\ neighbourIndices 4 ring_3 0 (-1) [0] <> Fail (Throw std_invalid_argument).
Proof. split; [reflexivity|]. cbv. discriminate. Qed.

(** C9 (amended): there is no check of the shell radius.  For a valid
    index and a negative shell radius s (such that (2s+1)^3 * basisCount is
    an int) [neighbourIndices] decodes the index, asks for a result vector
    of the negative size (2s+1)^3 * basisCount, and fails with the length
    error thrown by that allocation instead of returning a result. *)
Theorem neighbourIndices_negative_shell (fuel : nat) (m : LatticeMap)
        (Ra Rb Rc index s : Z) (g : Buffer) :
  valid_map m Ra Rb Rc ->
  0 <= index < Ra * Rb * Rc * n_basis_ m ->
  Ra <= Z.of_nat fuel -> Rb <= Z.of_nat fuel -> Rc <= Z.of_nat fuel ->
  s < 0 -> Int.min_int <= (2 * s + 1) ^ 3 * n_basis_ m ->
  neighbourIndices fuel m index s g = Fail (Throw std_length_error).
Proof.
  intros V Hidx Fa Fb Fc Hs Hmin.
  pose proof (valid_basis _ _ _ _ V) as Hnb.
  unfold neighbourIndices.
  rewrite (indexToCell_ok fuel m Ra Rb Rc index V Hidx Fa Fb Fc).
  destruct (direct_decode (n_basis_ m) Rb Rc index) as [[ci cj] ck].
  cbn [bind].
  set (w := 2 * s + 1) in *.
  assert (Hw : w <= -1) by (unfold w; lia).
  assert (Hww : 1 <= w * w) by nia.
  assert (Hw3 : w ^ 3 <= w).
  { replace (w ^ 3) with (w * (w * w)) by ring. nia. }
  assert (Hv : w ^ 3 * n_basis_ m <= w ^ 3) by nia.
  unfold Int.min_int in Hmin.
  rewrite (mul_small 2 s) by (unfold Int.in_range, Int.min_int, Int.max_int, w in *; lia).
  rewrite (add_small (2 * s) 1)
    by (unfold Int.in_range, Int.min_int, Int.max_int, w in *; lia).
  fold w. unfold pow3_times.
  rewrite in_rangeb_true by (unfold Int.in_range, Int.min_int, Int.max_int; lia).
  cbn [bind]. unfold vector_new.
  destruct (Z.ltb_spec (w ^ 3 * n_basis_ m) 0) as [_|H]; [reflexivity|lia].
Qed.

Lemma neighbourIndices_negative_shell_witness :
  neighbourIndices 4 lattice_2x3x4 47 (-2) [0; 0] = Fail (Throw std_length_error).
Proof.
  apply (neighbourIndices_negative_shell 4 lattice_2x3x4 2 3 4 47 (-2) [0; 0]).
  - valid_instance.
  - cbn. lia.
  - cbn. lia.
  - cbn. lia.
  - cbn. lia.
  - lia.
  - unfold Int.min_int. cbn. lia.
Defined.

(** ** Further properties of the operations *)

(** *** The decoder outside its range *)

(** X1: decoding undoes encoding.  Every index that [indicesFromCell]
    returns for a cell inside the grid is decoded by [indexToCell] to that
    cell. *)
Theorem encode_decode_round_trip (fuel : nat) (m : LatticeMap)
        (Ra Rb Rc i j k : Z) (g : Buffer) :
  valid_map m Ra Rb Rc -> buffer_ready m g ->
  0 <= i < Ra -> 0 <= j < Rb -> 0 <= k < Rc ->
  Ra <= Z.of_nat fuel -> Rb <= Z.of_nat fuel -> Rc <= Z.of_nat fuel ->
  exists r g',
    indicesFromCell m i j k g = Ok (r, g')
    /\ forall x, In x (deref r g') -> indexToCell fuel m x = Ok (i, j, k).
Proof.
  intros V Hg Hi Hj Hk Fa Fb Fc.
  exists tmp_cell_indices_ref, (cell_sites (n_basis_ m) Rb Rc i j k).
  split; [apply (indicesFromCell_ok m Ra Rb Rc i j k g); assumption|].
  cbn [deref]. intros x Hx. apply cell_sites_In in Hx.
  destruct Hx as (l & Hl & ->).
  destruct (direct_decode_encode (n_basis_ m) Ra Rb Rc i j k l
              (valid_basis _ _ _ _ V) Hi Hj Hk Hl) as [Hx Hdec].
  rewrite (indexToCell_ok fuel m Ra Rb Rc _ V Hx Fa Fb Fc), Hdec. reflexivity.
Qed.

Lemma encode_decode_round_trip_witness :
  exists r g',
    indicesFromCell lattice_2x3x4 1 2 3 [0; 0] = Ok (r, g')
    /\ forall x, In x (deref r g') -> indexToCell 4 lattice_2x3x4 x = Ok (1, 2, 3).
Proof.
  apply (encode_decode_round_trip 4 lattice_2x3x4 2 3 4 1 2 3 [0; 0]);
    try (cbn; lia).
  - valid_instance.
  - reflexivity.
Defined.

(** [indexToCell] never reads the repetition count of the first axis. *)
Lemma indexToCell_reads_two_counts (fuel : nat) (m m' : LatticeMap) (index : Z) :
  n_basis_ m = n_basis_ m' ->
  vector_get (repetitions_ m) 1 = vector_get (repetitions_ m') 1 ->
  vector_get (repetitions_ m) 2 = vector_get (repetitions_ m') 2 ->
  indexToCell fuel m index = indexToCell fuel m' index.
Proof.
  intros Hn H1 H2. unfold indexToCell. rewrite Hn, H1, H2. reflexivity.
Qed.

(** X2: [indexToCell] has no upper bound check.  An index at or past
    totalSites (as far as the arithmetic stays within int) is decoded by
    the same arithmetic as a valid one, giving a first coordinate of Ra or
    more; in particular the index totalSites decodes to (Ra, 0, 0). *)
Theorem indexToCell_past_the_end (fuel : nat) (m : LatticeMap)
        (Ra Rb Rc Ra' index : Z) :
  valid_map m Ra Rb Rc ->
  Ra <= Ra' -> Ra' * Rb * Rc * n_basis_ m <= Int.max_int ->
  Ra * Rb * Rc * n_basis_ m <= index < Ra' * Rb * Rc * n_basis_ m ->
  Ra' <= Z.of_nat fuel -> Rb <= Z.of_nat fuel -> Rc <= Z.of_nat fuel ->
  exists i j k,
    indexToCell fuel m index = Ok (i, j, k)
    /\ (i, j, k) = direct_decode (n_basis_ m) Rb Rc index
    /\ Ra <= i < Ra' /\ 0 <= j < Rb /\ 0 <= k < Rc
    /\ (index = Ra * Rb * Rc * n_basis_ m -> (i, j, k) = (Ra, 0, 0)).
Proof.
  intros V HRa' Hfit Hidx Fa Fb Fc.
  pose proof (valid_basis _ _ _ _ V) as Hnb.
  pose proof (valid_Ra _ _ _ _ V) as HRa.
  pose proof (valid_Rb _ _ _ _ V) as HRb.
  pose proof (valid_Rc _ _ _ _ V) as HRc.
  set (m' := {| n_basis_ := n_basis_ m; repetitions_ := [Ra'; Rb; Rc];
                periodic_ := periodic_ m |}).
  assert (V' : valid_map m' Ra' Rb Rc).
  { constructor; cbn; try assumption; try lia; try reflexivity.
    exact (valid_periodic _ _ _ _ V). }
  assert (Hcells : 0 <= Ra * Rb * Rc * n_basis_ m).
  { repeat apply Z.mul_nonneg_nonneg; lia. }
  assert (Hidx' : 0 <= index < Ra' * Rb * Rc * n_basis_ m') by (cbn; lia).
  assert (E : indexToCell fuel m index = indexToCell fuel m' index).
  { apply indexToCell_reads_two_counts; cbn;
      rewrite ?(valid_repetitions _ _ _ _ V); reflexivity. }
  rewrite E, (indexToCell_ok fuel m' Ra' Rb Rc index V' Hidx' Fa Fb Fc).
  cbn [n_basis_ m'].
  pose proof (direct_decode_facts (n_basis_ m) Ra' Rb Rc index Hnb
                ltac:(lia) HRb HRc ltac:(lia)) as D.
  destruct (direct_decode (n_basis_ m) Rb Rc index) as [[i j] k].
  destruct D as (Hi & Hj & Hk & Hc & Hlaw & Hl).
  exists i, j, k. split; [reflexivity|]. split; [reflexivity|].
  assert (Hlow : Ra <= i).
  { destruct (Z.le_gt_cases Ra i) as [H|H]; [exact H|exfalso].
    destruct (direct_decode_encode (n_basis_ m) Ra Rb Rc i j k
                (index mod n_basis_ m) Hnb ltac:(lia) Hj Hk Hl) as [B _].
    lia. }
  repeat split; try lia.
  intros Etot.
  assert (Elaw : cell_linear Rb Rc i j k * n_basis_ m + index mod n_basis_ m
                 = cell_linear Rb Rc Ra 0 0 * n_basis_ m + 0).
  { rewrite <- Hlaw, Etot. unfold cell_linear. ring. }
  destruct (mapping_law_injective (n_basis_ m) Rb Rc i j k _ Ra 0 0 0
              Hj Hk Hl ltac:(lia) ltac:(lia) ltac:(lia) Elaw) as (-> & -> & -> & _).
  reflexivity.
Qed.

Lemma indexToCell_past_the_end_witness :
  indexToCell 4 lattice_2x3x4 48 = Ok (2, 0, 0).
Proof.
  destruct (indexToCell_past_the_end 4 lattice_2x3x4 2 3 4 3 48)
    as (i & j & k & E & _ & _ & _ & _ & H);
    try (unfold Int.max_int; cbn; lia).
  - valid_instance.
  - rewrite E. f_equal. apply H. reflexivity.
Defined.

(** X3: [indexToCell] has no lower bound check either: every negative
    index is decoded to the cell (0, 0, 0). *)
Theorem indexToCell_negative_index (fuel : nat) (m : LatticeMap)
        (Ra Rb Rc index : Z) :
  valid_map m Ra Rb Rc -> Int.min_int <= index < 0 -> (0 < fuel)%nat ->
  indexToCell fuel m index = Ok (0, 0, 0).
Proof.
  intros V Hidx Hfuel.
  pose proof (valid_basis _ _ _ _ V) as Hnb.
  pose proof (valid_Rb _ _ _ _ V) as HRb.
  pose proof (valid_Rc _ _ _ _ V) as HRc.
  destruct (valid_bounds m Ra Rb Rc V) as (_ & Bb & Bc & _).
  pose proof (valid_sites _ _ _ _ V) as Hfit.
  pose proof (valid_Ra _ _ _ _ V) as HRa.
  assert (Hbc : 1 <= Rb * Rc <= Int.max_int).
  { split; [nia|].
    assert (Rb * Rc <= Ra * Rb * Rc) by nia.
    assert (Ra * Rb * Rc <= Ra * Rb * Rc * n_basis_ m) by nia. lia. }
  assert (Hq : index <= index ÷ n_basis_ m <= 0).
  { pose proof (Z.quot_opp_l index (n_basis_ m) ltac:(lia)) as Eo.
    assert (Hp : 0 <= (- index) ÷ n_basis_ m <= - index).
    { split; [apply Z.quot_pos; lia|].
      rewrite Z.quot_div_nonneg by lia.
      apply Z.div_le_upper_bound; [lia|]. nia. }
    lia. }
  unfold Int.min_int in Hidx. unfold Int.max_int in Hbc, Bb, Bc.
  destruct fuel as [|fuel]; [lia|].
  unfold indexToCell, int_div.
  destruct (Z.eqb_spec (n_basis_ m) 0) as [H0|_]; [lia|]. cbn [bind].
  unfold Int.quot.
  rewrite wrap_small by (unfold Int.in_range, Int.min_int, Int.max_int; lia).
  rewrite add_small by (unfold Int.in_range, Int.min_int, Int.max_int; lia).
  set (idx := index ÷ n_basis_ m + 1).
  assert (Hidx1 : idx <= 1) by (unfold idx; lia).
  assert (Hidx0 : -2147483648 <= idx) by (unfold idx; lia).
  rewrite (valid_repetitions _ _ _ _ V).
  change (vector_get [Ra; Rb; Rc] 1) with (Ok Rb).
  change (vector_get [Ra; Rb; Rc] 2) with (Ok Rc).
  cbn [bind].
  rewrite (mul_small Rb Rc) by (unfold Int.in_range, Int.min_int, Int.max_int; lia).
  unfold scan_cell. cbn [while fst snd].
  destruct (Z.ltb_spec (Rb * Rc) idx) as [H|_]; [lia|]. cbn [bind].
  rewrite (mul_small 0 (Rb * Rc))
    by (unfold Int.in_range, Int.min_int, Int.max_int; lia).
  rewrite (sub_small idx (0 * (Rb * Rc)))
    by (unfold Int.in_range, Int.min_int, Int.max_int; lia).
  replace (idx - 0 * (Rb * Rc)) with idx by ring.
  destruct (Z.ltb_spec Rc idx) as [H|_]; [lia|]. cbn [bind].
  rewrite (mul_small 0 Rc) by (unfold Int.in_range, Int.min_int, Int.max_int; lia).
  rewrite (add_small (0 * (Rb * Rc)) (0 * Rc))
    by (unfold Int.in_range, Int.min_int, Int.max_int; lia).
  rewrite (sub_small idx _) by (unfold Int.in_range, Int.min_int, Int.max_int; lia).
  replace (idx - (0 * (Rb * Rc) + 0 * Rc)) with idx by ring.
  destruct (Z.ltb_spec 1 idx) as [H|_]; [lia|]. cbn [bind].
  reflexivity.
Qed.

Lemma indexToCell_negative_index_witness :
  indexToCell 1 lattice_2x3x4 (-5) = Ok (0, 0, 0).
Proof.
  apply (indexToCell_negative_index 1 lattice_2x3x4 2 3 4 (-5)).
  - valid_instance.
  - unfold Int.min_int. lia.
  - lia.
Defined.

(** *** Geometry that the constructor lets through *)

(** X4: a basis count of 0 passes construction, and every later decode on
    the constructed map divides by zero: [indexToCell], [neighbourIndices]
    and [supersetNeighbourIndices] on a non-empty list all fail with the
    division by zero, for every index and shell radius; only the superset
    of the empty list still returns, with the empty result. *)
Theorem zero_basis_divides_by_zero (repetitions : list Z) (periodic : list bool)
        (g0 : Buffer) :
  exists m g,
    LatticeMap_ctor 0 repetitions periodic g0 = Ok (m, g)
    /\ forall fuel index shells rest g',
        indexToCell fuel m index = Fail DivisionByZero
        /\ neighbourIndices fuel m index shells g' = Fail DivisionByZero
        /\ supersetNeighbourIndices fuel m (index :: rest) g' = Fail DivisionByZero
        /\ supersetNeighbourIndices fuel m [] g' = Ok ([], g').
Proof.
  eexists _, _. split; [reflexivity|].
  intros fuel index shells rest g'.
  repeat split.
Qed.

Lemma scan_cell_zero_factor (idx : Z) (fuel : nat) :
  0 < idx ->
  forall c, while fuel (fun st : Z * Z => snd st <? idx)
                  (fun st => Ok (Int.add (fst st) 1, Int.add (snd st) 0))
                  (c, 0)
            = Fail OutOfFuel.
Proof.
  intros Hidx. induction fuel as [|fuel IH]; intros c; cbn [while fst snd].
  - reflexivity.
  - destruct (Z.ltb_spec 0 idx) as [_|H]; [|lia].
    cbn [bind]. change (Int.add 0 0) with 0. apply IH.
Qed.

(** X5: a repetition count of 0 on the second or third axis passes
    construction, and then the first scanning loop of [indexToCell] never
    ends for any index from 0 on: the comparison value stays 0, below the
    target, whatever the fuel. *)
Theorem indexToCell_zero_repetition_diverges (m : LatticeMap) (Ra Rb Rc index : Z) :
  repetitions_ m = [Ra; Rb; Rc] -> Rb * Rc = 0 ->
  0 < n_basis_ m -> 0 <= index < Int.max_int ->
  forall fuel, indexToCell fuel m index = Fail OutOfFuel.
Proof.
  intros Hreps Hzero Hnb Hidx fuel.
  unfold Int.max_int in Hidx.
  assert (Hq : 0 <= index / n_basis_ m <= index).
  { split; [apply Z.div_pos; lia|].
    apply Z.div_le_upper_bound; [lia|]. nia. }
  unfold indexToCell, int_div.
  destruct (Z.eqb_spec (n_basis_ m) 0) as [H0|_]; [lia|]. cbn [bind].
  unfold Int.quot. rewrite Z.quot_div_nonneg by lia.
  rewrite wrap_small by (unfold Int.in_range, Int.min_int, Int.max_int; lia).
  rewrite add_small by (unfold Int.in_range, Int.min_int, Int.max_int; lia).
  rewrite Hreps.
  change (vector_get [Ra; Rb; Rc] 1) with (Ok Rb).
  change (vector_get [Ra; Rb; Rc] 2) with (Ok Rc).
  cbn [bind]. unfold Int.mul at 1. rewrite Hzero.
  change (Int.wrap 0) with 0.
  unfold scan_cell. rewrite scan_cell_zero_factor by lia. reflexivity.
Qed.

Lemma indexToCell_zero_repetition_diverges_witness :
  exists m g,
    LatticeMap_ctor 1 [2; 0; 3] [false; false; false] [] = Ok (m, g)
    /\ forall fuel, indexToCell fuel m 0 = Fail OutOfFuel.
Proof.
  eexists _, _. split; [reflexivity|].
  apply (indexToCell_zero_repetition_diverges _ 2 0 3 0).
  - reflexivity.
  - reflexivity.
  - cbn. lia.
  - unfold Int.max_int. lia.
Defined.

(** *** The encoder outside its range *)

Lemma indicesFromCell_unchecked (m : LatticeMap) (Ra Rb Rc i j k : Z)
      (old rest : list Z) :
  repetitions_ m = [Ra; Rb; Rc] -> 0 <= n_basis_ m ->
  length old = Z.to_nat (n_basis_ m) ->
  Int.in_range (i * Rb) -> Int.in_range (i * Rb + j) ->
  Int.in_range ((i * Rb + j) * Rc) -> Int.in_range ((i * Rb + j) * Rc + k) ->
  Int.in_range (cell_linear Rb Rc i j k * n_basis_ m) ->
  Int.in_range (cell_linear Rb Rc i j k * n_basis_ m + n_basis_ m) ->
  indicesFromCell m i j k (old ++ rest)
  = Ok (tmp_cell_indices_ref, cell_sites (n_basis_ m) Rb Rc i j k ++ rest).
Proof.
  intros Hreps Hnb Hold H1 H2 H3 H4 H5 H6.
  unfold indicesFromCell. rewrite Hreps.
  change (vector_get [Ra; Rb; Rc] 1) with (Ok Rb).
  change (vector_get [Ra; Rb; Rc] 2) with (Ok Rc).
  cbn [bind]. unfold cell_linear in *.
  rewrite (mul_small i Rb) by exact H1.
  rewrite (add_small (i * Rb) j) by exact H2.
  rewrite (mul_small (i * Rb + j) Rc) by exact H3.
  rewrite (add_small ((i * Rb + j) * Rc) k) by exact H4.
  rewrite (mul_small _ (n_basis_ m)) by exact H5.
  pose proof (fill_cell_indices_ok (Z.to_nat (n_basis_ m)) [] old rest
                ((((i * Rb + j) * Rc) + k) * n_basis_ m) Hold) as F.
  cbn [length app] in F. change (Z.of_nat 0) with 0 in F.
  rewrite F; [reflexivity|].
  intros x Hx. unfold Int.in_range in *. lia.
Qed.

(** X6: [indicesFromCell] does not check its coordinates.  A second
    coordinate one row past the end, (i-1, j+Rb, k), and a third coordinate
    one column past the end, (i, j-1, k+Rc), are accepted: both calls
    return, and what they return is the list of the basisCount indices of
    the cell (i, j, k), the same as the call for (i, j, k) itself. *)
Theorem indicesFromCell_aliases_out_of_range (m : LatticeMap) (Ra Rb Rc i j k : Z)
        (g : Buffer) :
  valid_map m Ra Rb Rc -> buffer_ready m g ->
  0 <= i < Ra -> 0 <= j < Rb -> 0 <= k < Rc ->
  exists r g',
    indicesFromCell m (i - 1) (j + Rb) k g = Ok (r, g')
    /\ indicesFromCell m i (j - 1) (k + Rc) g = Ok (r, g')
    /\ indicesFromCell m i j k g = Ok (r, g')
    /\ deref r g'
       = map (fun l => ((i * Rb + j) * Rc + k) * n_basis_ m + l)
             (zrange 0 (Z.to_nat (n_basis_ m))).
Proof.
  intros V Hg Hi Hj Hk.
  pose proof (valid_basis _ _ _ _ V) as Hnb.
  pose proof (valid_sites _ _ _ _ V) as Hfit.
  pose proof (valid_repetitions _ _ _ _ V) as Hreps.
  destruct (valid_bounds m Ra Rb Rc V) as (Ba & Bb & Bc & Bn).
  destruct (cell_linear_bounds Ra Rb Rc i j k Hi Hj Hk) as [B1 B2].
  unfold cell_linear in B2.
  assert (Hcells : Ra * Rb * Rc <= Int.max_int).
  { assert (Ra * Rb * Rc <= Ra * Rb * Rc * n_basis_ m) by nia. lia. }
  assert (Hab : Ra * Rb <= Ra * Rb * Rc) by nia.
  assert (Hlin : 0 <= ((i * Rb + j) * Rc + k) * n_basis_ m
                 /\ ((i * Rb + j) * Rc + k) * n_basis_ m + n_basis_ m
                    <= Ra * Rb * Rc * n_basis_ m).
  { split; [apply Z.mul_nonneg_nonneg; lia|].
    replace (((i * Rb + j) * Rc + k) * n_basis_ m + n_basis_ m)
      with (((i * Rb + j) * Rc + k + 1) * n_basis_ m) by ring.
    apply Z.mul_le_mono_nonneg_r; lia. }
  assert (HiRb : 0 <= i * Rb) by (apply Z.mul_nonneg_nonneg; lia).
  assert (HjRc : 0 <= (i * Rb + j) * Rc) by (apply Z.mul_nonneg_nonneg; lia).
  unfold Int.max_int in *.
  exists tmp_cell_indices_ref, (cell_sites (n_basis_ m) Rb Rc i j k).
  cut (indicesFromCell m (i - 1) (j + Rb) k g
       = Ok (tmp_cell_indices_ref, cell_sites (n_basis_ m) Rb Rc i j k)
       /\ indicesFromCell m i (j - 1) (k + Rc) g
          = Ok (tmp_cell_indices_ref, cell_sites (n_basis_ m) Rb Rc i j k)).
  { intros [H1 H2]. split; [exact H1|]. split; [exact H2|].
    split; [|reflexivity].
    apply (indicesFromCell_ok m Ra Rb Rc i j k g V Hg Hi Hj Hk). }
  rewrite <- (app_nil_r g).
  assert (E1 : cell_linear Rb Rc (i - 1) (j + Rb) k = cell_linear Rb Rc i j k)
    by (unfold cell_linear; ring).
  assert (E2 : cell_linear Rb Rc i (j - 1) (k + Rc) = cell_linear Rb Rc i j k)
    by (unfold cell_linear; ring).
  split.
  - rewrite (indicesFromCell_unchecked m Ra Rb Rc (i - 1) (j + Rb) k g []);
      try assumption; try lia.
    + rewrite app_nil_r. unfold cell_sites. rewrite E1. reflexivity.
    + unfold Int.in_range, Int.min_int, Int.max_int. lia.
    + unfold Int.in_range, Int.min_int, Int.max_int. lia.
    + replace ((i - 1) * Rb + (j + Rb)) with (i * Rb + j) by ring.
      unfold Int.in_range, Int.min_int, Int.max_int. lia.
    + replace ((i - 1) * Rb + (j + Rb)) with (i * Rb + j) by ring.
      unfold Int.in_range, Int.min_int, Int.max_int. lia.
    + rewrite E1. unfold cell_linear, Int.in_range, Int.min_int, Int.max_int. lia.
    + rewrite E1. unfold cell_linear, Int.in_range, Int.min_int, Int.max_int. lia.
  - rewrite (indicesFromCell_unchecked m Ra Rb Rc i (j - 1) (k + Rc) g []);
      try assumption; try lia.
    + rewrite app_nil_r. unfold cell_sites. rewrite E2. reflexivity.
    + unfold Int.in_range, Int.min_int, Int.max_int. lia.
    + unfold Int.in_range, Int.min_int, Int.max_int. lia.
    + replace ((i * Rb + (j - 1)) * Rc) with ((i * Rb + j) * Rc - Rc) by ring.
      unfold Int.in_range, Int.min_int, Int.max_int. lia.
    + replace ((i * Rb + (j - 1)) * Rc + (k + Rc)) with ((i * Rb + j) * Rc + k) by ring.
      unfold Int.in_range, Int.min_int, Int.max_int. lia.
    + rewrite E2. unfold cell_linear, Int.in_range, Int.min_int, Int.max_int. lia.
    + rewrite E2. unfold cell_linear, Int.in_range, Int.min_int, Int.max_int. lia.
Qed.

Lemma indicesFromCell_aliases_out_of_range_witness :
  exists r g',
    indicesFromCell lattice_2x3x4 0 5 3 [0; 0] = Ok (r, g')
    /\ indicesFromCell lattice_2x3x4 1 1 7 [0; 0] = Ok (r, g')
    /\ indicesFromCell lattice_2x3x4 1 2 3 [0; 0] = Ok (r, g')
    /\ deref r g' = [46; 47].
Proof.
  apply (indicesFromCell_aliases_out_of_range lattice_2x3x4 2 3 4 1 2 3 [0; 0]);
    try lia.
  - valid_instance.
  - reflexivity.
Defined.

(** *** Several maps on one shared vector *)

Lemma replace_nth_past_end (x : Z) (pre : list Z) :
  replace_nth (length pre) x pre = None.
Proof.
  induction pre as [|h pre IH]; cbn [length replace_nth]; [reflexivity|].
  rewrite IH. reflexivity.
Qed.

Lemma fill_cell_indices_short (count : nat) :
  forall (pre old : list Z) (tmp3 : Z),
    (length old < count)%nat ->
    fill_cell_indices count (Z.of_nat (length pre)) tmp3 (pre ++ old)
    = Fail OutOfBounds.
Proof.
  induction count as [|count IH]; intros pre old tmp3 Hlen; [lia|].
  cbn [fill_cell_indices]. destruct old as [|o old].
  - rewrite app_nil_r. unfold vector_set.
    destruct (Z.ltb_spec (Z.of_nat (length pre)) 0) as [H|_]; [lia|].
    rewrite Nat2Z.id, replace_nth_past_end. reflexivity.
  - rewrite vector_set_app. cbn [bind].
    specialize (IH (pre ++ [Int.add tmp3 (Z.of_nat (length pre))]) old tmp3).
    rewrite length_app in IH. cbn [length] in IH.
    replace (Z.of_nat (length pre + 1)) with (Z.of_nat (length pre) + 1) in IH by lia.
    rewrite <- app_assoc in IH. cbn [app] in IH.
    apply IH. cbn [length] in Hlen. lia.
Qed.

(** X7: constructing a second map with a smaller basis count shrinks the
    shared vector, after which the encoder of the first map writes past its
    end: every call of [indicesFromCell] on the first map, whatever the
    coordinates, is then an out-of-bounds access. *)
Theorem smaller_map_breaks_encoder (m : LatticeMap) (Ra Rb Rc n_basis' : Z)
        (repetitions' : list Z) (periodic' : list bool) (g : Buffer) :
  repetitions_ m = [Ra; Rb; Rc] -> buffer_ready m g ->
  0 <= n_basis' < n_basis_ m ->
  exists m' g',
    LatticeMap_ctor n_basis' repetitions' periodic' g = Ok (m', g')
    /\ length g' = Z.to_nat n_basis'
    /\ forall i j k, indicesFromCell m i j k g' = Fail OutOfBounds.
Proof.
  intros Hreps Hg Hn.
  unfold LatticeMap_ctor, vector_resize.
  destruct (Z.ltb_spec n_basis' 0) as [H|_]; [lia|]. cbn [bind].
  eexists _, _. split; [reflexivity|].
  set (g' := firstn (Z.to_nat n_basis') g ++ repeat 0 (Z.to_nat n_basis' - length g)).
  assert (Hlen : length g' = Z.to_nat n_basis').
  { unfold g'. rewrite length_app, length_firstn, repeat_length. lia. }
  split; [exact Hlen|].
  intros i j k. unfold indicesFromCell. rewrite Hreps.
  change (vector_get [Ra; Rb; Rc] 1) with (Ok Rb).
  change (vector_get [Ra; Rb; Rc] 2) with (Ok Rc).
  cbn [bind].
  pose proof (fill_cell_indices_short (Z.to_nat (n_basis_ m)) [] g') as F.
  cbn [length app] in F. change (Z.of_nat 0) with 0 in F.
  rewrite F by lia. reflexivity.
Qed.

Lemma smaller_map_breaks_encoder_witness :
  exists m' g',
    LatticeMap_ctor 1 [1; 1; 1] [true; true; true] [46; 47] = Ok (m', g')
    /\ indicesFromCell lattice_2x3x4 0 0 0 g' = Fail OutOfBounds.
Proof.
  destruct (smaller_map_breaks_encoder lattice_2x3x4 2 3 4 1 [1; 1; 1]
              [true; true; true] [46; 47]) as (m' & g' & E & _ & H).
  - reflexivity.
  - reflexivity.
  - cbn. lia.
  - exists m', g'. split; [exact E|apply H].
Defined.

(** X8: constructing a second map with a larger basis count grows the
    shared vector, after which the reference that [indicesFromCell] returns
    for the first map holds more than basisCount values: the indices of the
    cell followed by whatever the rest of the shared vector holds. *)
Theorem larger_map_lengthens_result (m : LatticeMap) (Ra Rb Rc n_basis' : Z)
        (repetitions' : list Z) (periodic' : list bool) (i j k : Z) (g : Buffer) :
  valid_map m Ra Rb Rc -> buffer_ready m g ->
  n_basis_ m < n_basis' ->
  0 <= i < Ra -> 0 <= j < Rb -> 0 <= k < Rc ->
  exists m' g' r g'',
    LatticeMap_ctor n_basis' repetitions' periodic' g = Ok (m', g')
    /\ indicesFromCell m i j k g' = Ok (r, g'')
    /\ deref r g''
       = cell_sites (n_basis_ m) Rb Rc i j k
         ++ repeat 0 (Z.to_nat n_basis' - Z.to_nat (n_basis_ m))
    /\ length (deref r g'') = Z.to_nat n_basis'.
Proof.
  intros V Hg Hn Hi Hj Hk.
  pose proof (valid_basis _ _ _ _ V) as Hnb.
  pose proof (valid_sites _ _ _ _ V) as Hfit.
  destruct (cell_linear_bounds Ra Rb Rc i j k Hi Hj Hk) as [B1 B2].
  unfold LatticeMap_ctor, vector_resize.
  destruct (Z.ltb_spec n_basis' 0) as [H|_]; [lia|]. cbn [bind].
  unfold buffer_ready in Hg.
  rewrite firstn_all2 by lia. rewrite Hg.
  assert (HiRb : 0 <= i * Rb) by (apply Z.mul_nonneg_nonneg; lia).
  assert (Hab : Ra * Rb <= Ra * Rb * Rc)
    by (pose proof (valid_Rc _ _ _ _ V); pose proof (valid_Ra _ _ _ _ V);
        pose proof (valid_Rb _ _ _ _ V); nia).
  assert (Hcells : Ra * Rb * Rc <= Ra * Rb * Rc * n_basis_ m)
    by (pose proof (valid_Rc _ _ _ _ V); pose proof (valid_Ra _ _ _ _ V);
        pose proof (valid_Rb _ _ _ _ V); nia).
  assert (HjRc : 0 <= (i * Rb + j) * Rc) by (apply Z.mul_nonneg_nonneg; lia).
  assert (Hlin : 0 <= cell_linear Rb Rc i j k * n_basis_ m
                 /\ cell_linear Rb Rc i j k * n_basis_ m + n_basis_ m
                    <= Ra * Rb * Rc * n_basis_ m).
  { split; [apply Z.mul_nonneg_nonneg; lia|].
    replace (cell_linear Rb Rc i j k * n_basis_ m + n_basis_ m)
      with ((cell_linear Rb Rc i j k + 1) * n_basis_ m) by ring.
    apply Z.mul_le_mono_nonneg_r; lia. }
  unfold cell_linear in B2, Hlin. unfold Int.max_int in Hfit.
  eexists _, _, tmp_cell_indices_ref, _. split; [reflexivity|].
  split.
  - apply (indicesFromCell_unchecked m Ra Rb Rc i j k g);
      try (unfold cell_linear, Int.in_range, Int.min_int, Int.max_int; lia).
    exact (valid_repetitions _ _ _ _ V).
  - cbn [deref]. split; [reflexivity|].
    rewrite length_app, cell_sites_length, repeat_length. lia.
Qed.

Lemma larger_map_lengthens_result_witness :
  exists m' g' r g'',
    LatticeMap_ctor 3 [1; 1; 1] [true; true; true] [0; 0] = Ok (m', g')
    /\ indicesFromCell lattice_2x3x4 1 2 3 g' = Ok (r, g'')
    /\ deref r g'' = [46; 47; 0].
Proof.
  destruct (larger_map_lengthens_result lattice_2x3x4 2 3 4 3 [1; 1; 1]
              [true; true; true] 1 2 3 [0; 0])
    as (m' & g' & r & g'' & E1 & E2 & E3 & _); try (cbn; lia).
  - valid_instance.
  - reflexivity.
  - exists m', g', r, g''. split; [exact E1|]. split; [exact E2|exact E3].
Defined.

(** *** The neighbour enumerator *)

(** X9: the content of the shared vector does not matter to a query and
    its size is kept.  Whatever the shared vector holds beforehand (at the
    size of the map), [neighbourIndices] and [supersetNeighbourIndices]
    return the same result, and they leave the vector at the same size, so
    that queries can follow one another. *)
Theorem queries_ignore_buffer_content (fuel : nat) (m : LatticeMap)
        (Ra Rb Rc index s : Z) (indices : list Z) (g1 g2 : Buffer) :
  valid_map m Ra Rb Rc -> buffer_ready m g1 -> buffer_ready m g2 ->
  0 <= index < Ra * Rb * Rc * n_basis_ m ->
  (forall x, In x indices -> 0 <= x < Ra * Rb * Rc * n_basis_ m) ->
  shell_fits (n_basis_ m) Ra Rb Rc s -> enough_fuel Ra Rb Rc s fuel ->
  shell_fits (n_basis_ m) Ra Rb Rc default_shells ->
  enough_fuel Ra Rb Rc default_shells fuel ->
  (exists nbs g1' g2',
      neighbourIndices fuel m index s g1 = Ok (nbs, g1')
      /\ neighbourIndices fuel m index s g2 = Ok (nbs, g2')
      /\ buffer_ready m g1' /\ buffer_ready m g2')
  /\ (exists sup g1' g2',
         supersetNeighbourIndices fuel m indices g1 = Ok (sup, g1')
         /\ supersetNeighbourIndices fuel m indices g2 = Ok (sup, g2')
         /\ buffer_ready m g1' /\ buffer_ready m g2').
Proof.
  intros V H1 H2 Hidx Hall Hfits Hfuel Hfits1 Hfuel1. split.
  - destruct (neighbourIndices_ok fuel m Ra Rb Rc index s g1 V H1 Hidx Hfits Hfuel)
      as (g1' & E1 & R1).
    destruct (neighbourIndices_ok fuel m Ra Rb Rc index s g2 V H2 Hidx Hfits Hfuel)
      as (g2' & E2 & R2).
    eexists _, g1', g2'. repeat split; eassumption.
  - destruct (supersetNeighbourIndices_ok fuel m Ra Rb Rc indices g1 V H1
                Hfits1 Hfuel1 Hall) as (g1' & E1 & R1).
    destruct (supersetNeighbourIndices_ok fuel m Ra Rb Rc indices g2 V H2
                Hfits1 Hfuel1 Hall) as (g2' & E2 & R2).
    eexists _, g1', g2'. repeat split; eassumption.
Qed.

Lemma queries_ignore_buffer_content_witness :
  exists nbs g1' g2',
    neighbourIndices 5 ring_3 0 1 [0] = Ok (nbs, g1')
    /\ neighbourIndices 5 ring_3 0 1 [99] = Ok (nbs, g2').
Proof.
  destruct (queries_ignore_buffer_content 5 ring_3 3 1 1 0 1 [0; 1] [0] [99])
    as [(nbs & g1' & g2' & E1 & E2 & _) _].
  - valid_instance.
  - reflexivity.
  - reflexivity.
  - cbn. lia.
  - cbn. intros x [<-|[<-|[]]]; lia.
  - unfold shell_fits, Int.max_int. cbn. lia.
  - unfold enough_fuel. cbn. lia.
  - unfold shell_fits, default_shells, Int.max_int. cbn. lia.
  - unfold enough_fuel, default_shells. cbn. lia.
  - exists nbs, g1', g2'. split; assumption.
Defined.

(** X10: the order of a neighbour list.  [neighbourIndices] returns the
    kept cells in the order of its loops: the candidates of the first axis
    from ci - s up to ci + s outermost, those of the third axis innermost,
    and for every kept cell its basisCount indices in ascending order
    ([neighbour_sites] is that enumeration). *)
Theorem neighbourIndices_in_loop_order (fuel : nat) (m : LatticeMap)
        (Ra Rb Rc index s ci cj ck : Z) (g : Buffer) :
  valid_map m Ra Rb Rc -> buffer_ready m g ->
  0 <= index < Ra * Rb * Rc * n_basis_ m ->
  shell_fits (n_basis_ m) Ra Rb Rc s -> enough_fuel Ra Rb Rc s fuel ->
  indexToCell fuel m index = Ok (ci, cj, ck) ->
  exists g',
    neighbourIndices fuel m index s g
    = Ok (flat_map (fun i =>
            match axis_cell (periodic_at m 0) Ra i with
            | None => []
            | Some ii =>
                flat_map (fun j =>
                  match axis_cell (periodic_at m 1) Rb j with
                  | None => []
                  | Some jj =>
                      flat_map (fun k =>
                        match axis_cell (periodic_at m 2) Rc k with
                        | None => []
                        | Some kk =>
                            map (fun l => ((ii * Rb + jj) * Rc + kk) * n_basis_ m + l)
                                (zrange 0 (Z.to_nat (n_basis_ m)))
                        end) (zrange (ck - s) (Z.to_nat (2 * s + 1)))
                  end) (zrange (cj - s) (Z.to_nat (2 * s + 1)))
            end) (zrange (ci - s) (Z.to_nat (2 * s + 1))), g')
    /\ (forall a R y,
           vector_get (repetitions_ m) a = Ok R ->
           Int.in_range y ->
           axis_candidate m a y = Ok (axis_cell (periodic_at m (Z.to_nat a)) R y)).
Proof.
  intros V Hg Hidx Hfits Hfuel Ecell.
  destruct (neighbourIndices_ok fuel m Ra Rb Rc index s g V Hg Hidx Hfits Hfuel)
    as (g' & En & _).
  destruct Hfits as (Hs & _).
  destruct (decoded_cell fuel m Ra Rb Rc index ci cj ck V Hidx
              (enough_fuel_zero _ _ _ _ _ Hs Hfuel) Ecell) as (D & _).
  rewrite D in En. exists g'. split; [exact En|].
  intros a R y HR Hy.
  assert (Ha : 0 <= a < 3).
  { rewrite (valid_repetitions _ _ _ _ V) in HR. unfold vector_get in HR.
    destruct (Z.ltb_spec a 0) as [|Ha]; [discriminate|].
    destruct (Z.to_nat a) as [|[|[|n]]] eqn:E; cbn in HR; try lia.
    destruct n; discriminate. }
  assert (Hp : vector_get (periodic_ m) a = Ok (periodic_at m (Z.to_nat a))).
  { unfold periodic_at. rewrite <- (Z2Nat.id a) at 1 by lia.
    apply vector_get_nth. rewrite (valid_periodic _ _ _ _ V). lia. }
  destruct (valid_axis m Ra Rb Rc a _ R V HR Hp) as [HRb' _].
  apply axis_candidate_ok; assumption.
Qed.

Lemma neighbourIndices_in_loop_order_witness :
  exists g', neighbourIndices 4 ring_3 0 1 [0] = Ok ([2; 0; 1], g').
Proof.
  destruct (neighbourIndices_in_loop_order 4 ring_3 3 1 1 0 1 0 0 0 [0])
    as (g' & E & _).
  - valid_instance.
  - reflexivity.
  - cbn. lia.
  - unfold shell_fits, Int.max_int. cbn. lia.
  - unfold enough_fuel. cbn. lia.
  - reflexivity.
  - exists g'. exact E.
Defined.

(** X11: a site is its own neighbour.  For every shell radius from 0 on,
    the list that [neighbourIndices] returns for an index contains that
    index. *)
Theorem neighbourIndices_contains_index (fuel : nat) (m : LatticeMap)
        (Ra Rb Rc index s : Z) (g : Buffer) :
  valid_map m Ra Rb Rc -> buffer_ready m g ->
  0 <= index < Ra * Rb * Rc * n_basis_ m ->
  shell_fits (n_basis_ m) Ra Rb Rc s -> enough_fuel Ra Rb Rc s fuel ->
  exists nbs g', neighbourIndices fuel m index s g = Ok (nbs, g') /\ In index nbs.
Proof.
  intros V Hg Hidx Hfits Hfuel.
  pose proof Hfits as (Hs & _). pose proof Hfuel as (Fa & Fb & Fc & _).
  pose proof (indexToCell_ok fuel m Ra Rb Rc index V Hidx Fa Fb Fc) as Ecell.
  pose proof (direct_decode_facts (n_basis_ m) Ra Rb Rc index
                (valid_basis _ _ _ _ V) (valid_Ra _ _ _ _ V)
                (valid_Rb _ _ _ _ V) (valid_Rc _ _ _ _ V) Hidx) as D.
  destruct (direct_decode (n_basis_ m) Rb Rc index) as [[ci cj] ck].
  destruct D as (Hi & Hj & Hk & _ & Hlaw & Hl).
  destruct (neighbourIndices_members fuel m Ra Rb Rc index s ci cj ck g
              V Hg Hidx Hfits Hfuel Ecell) as (nbs & g' & En & Hmem).
  exists nbs, g'. split; [exact En|].
  destruct (valid_bounds m Ra Rb Rc V) as (Ba & Bb & Bc & _).
  apply Hmem. exists 0, 0, 0, ci, cj, ck, (index mod n_basis_ m).
  rewrite !Z.add_0_r.
  assert (Pa : vector_get (periodic_ m) 0 = Ok (periodic_at m 0))
    by (rewrite (valid_periodic_flags _ _ _ _ V) at 1; reflexivity).
  assert (Pb : vector_get (periodic_ m) 1 = Ok (periodic_at m 1))
    by (rewrite (valid_periodic_flags _ _ _ _ V) at 1; reflexivity).
  assert (Pc : vector_get (periodic_ m) 2 = Ok (periodic_at m 2))
    by (rewrite (valid_periodic_flags _ _ _ _ V) at 1; reflexivity).
  assert (Qa : vector_get (repetitions_ m) 0 = Ok Ra)
    by (rewrite (valid_repetitions _ _ _ _ V); reflexivity).
  assert (Qb : vector_get (repetitions_ m) 1 = Ok Rb)
    by (rewrite (valid_repetitions _ _ _ _ V); reflexivity).
  assert (Qc : vector_get (repetitions_ m) 2 = Ok Rc)
    by (rewrite (valid_repetitions _ _ _ _ V); reflexivity).
  rewrite (axis_candidate_ok m 0 _ Ra ci Pa Qa) by (try apply in_range_nonneg; lia).
  rewrite (axis_candidate_ok m 1 _ Rb cj Pb Qb) by (try apply in_range_nonneg; lia).
  rewrite (axis_candidate_ok m 2 _ Rc ck Pc Qc) by (try apply in_range_nonneg; lia).
  rewrite !axis_cell_inside by assumption.
  unfold cell_linear in Hlaw. repeat split; try lia.
Qed.

Lemma neighbourIndices_contains_index_witness :
  exists nbs g', neighbourIndices 5 lattice_2x3x4 47 1 [0; 0] = Ok (nbs, g') /\ In 47 nbs.
Proof.
  apply (neighbourIndices_contains_index 5 lattice_2x3x4 2 3 4 47 1 [0; 0]).
  - valid_instance.
  - reflexivity.
  - cbn. lia.
  - unfold shell_fits, Int.max_int. cbn. lia.
  - unfold enough_fuel. cbn. lia.
Defined.

Lemma valid_vector_gets (m : LatticeMap) (Ra Rb Rc : Z) :
  valid_map m Ra Rb Rc ->
  vector_get (periodic_ m) 0 = Ok (periodic_at m 0)
  /\ vector_get (periodic_ m) 1 = Ok (periodic_at m 1)
  /\ vector_get (periodic_ m) 2 = Ok (periodic_at m 2)
  /\ vector_get (repetitions_ m) 0 = Ok Ra
  /\ vector_get (repetitions_ m) 1 = Ok Rb
  /\ vector_get (repetitions_ m) 2 = Ok Rc.
Proof.
  intros V.
  repeat split;
    first [ rewrite (valid_periodic_flags _ _ _ _ V) at 1; reflexivity
          | rewrite (valid_repetitions _ _ _ _ V); reflexivity ].
Qed.

(** A kept candidate leads back: from the cell it lands on, the opposite
    offset lands on the cell it started from. *)
Lemma axis_cell_back (p : bool) (R c d c' : Z) :
  0 <= c < R -> axis_cell p R (c + d) = Some c' ->
  axis_cell p R (c' + - d) = Some c.
Proof.
  intros Hc H. unfold axis_cell in H.
  destruct p.
  - destruct (Z.ltb_spec (c + d) 0) as [H1|H1].
    + destruct (Z.geb_spec (c + d + R) 0) as [H2|H2];
        destruct (Z.ltb_spec (c + d + R) R) as [H3|H3]; cbn [andb] in H;
        try discriminate.
      injection H as <-. rewrite axis_cell_periodic by lia.
      destruct (Z.leb_spec (- R) (c + d + R + - d)) as [_|H4]; [|lia].
      destruct (Z.ltb_spec (c + d + R + - d) (2 * R)) as [_|H5]; [|lia].
      cbn [andb]. f_equal. symmetry. apply (Z.mod_unique _ R 1); lia.
    + destruct (Z.geb_spec (c + d) R) as [H2|H2].
      * destruct (Z.geb_spec (c + d - R) 0) as [H3|H3];
          destruct (Z.ltb_spec (c + d - R) R) as [H4|H4]; cbn [andb] in H;
          try discriminate.
        injection H as <-. rewrite axis_cell_periodic by lia.
        destruct (Z.leb_spec (- R) (c + d - R + - d)) as [_|H5]; [|lia].
        destruct (Z.ltb_spec (c + d - R + - d) (2 * R)) as [_|H6]; [|lia].
        cbn [andb]. f_equal. symmetry. apply (Z.mod_unique _ R (-1)); lia.
      * destruct (Z.geb_spec (c + d) 0) as [H3|H3];
          destruct (Z.ltb_spec (c + d) R) as [H4|H4]; cbn [andb] in H;
          try discriminate.
        injection H as <-.
        replace (c + d + - d) with c by ring. apply axis_cell_inside. exact Hc.
  - destruct (Z.geb_spec (c + d) 0) as [H3|H3];
      destruct (Z.ltb_spec (c + d) R) as [H4|H4]; cbn [andb] in H;
      try discriminate.
    injection H as <-.
    replace (c + d + - d) with c by ring. apply axis_cell_inside. exact Hc.
Qed.

(** X12: being a neighbour is symmetric.  If [neighbourIndices] lists y
    among the neighbours of x for a shell radius s, it lists x among the
    neighbours of y for the same radius, on periodic and on open axes. *)
Theorem neighbour_relation_symmetric (fuel : nat) (m : LatticeMap)
        (Ra Rb Rc x y s : Z) (g : Buffer) (nbs : list Z) (g' : Buffer) :
  valid_map m Ra Rb Rc -> buffer_ready m g ->
  0 <= x < Ra * Rb * Rc * n_basis_ m ->
  shell_fits (n_basis_ m) Ra Rb Rc s -> enough_fuel Ra Rb Rc s fuel ->
  neighbourIndices fuel m x s g = Ok (nbs, g') -> In y nbs ->
  exists nbs' g'',
    neighbourIndices fuel m y s g = Ok (nbs', g'') /\ In x nbs'.
Proof.
  intros V Hg Hx Hfits Hfuel En Hy.
  pose proof Hfits as (Hs & Fa & Fb & Fc & _).
  pose proof Hfuel as (Ea & Eb & Ec & _).
  pose proof (valid_basis _ _ _ _ V) as Hnb.
  destruct (valid_vector_gets m Ra Rb Rc V) as (Pa & Pb & Pc & Qa & Qb & Qc).
  destruct (valid_bounds m Ra Rb Rc V) as (Ba & Bb & Bc & _).
  pose proof (valid_Ra _ _ _ _ V) as HRa.
  pose proof (valid_Rb _ _ _ _ V) as HRb.
  pose proof (valid_Rc _ _ _ _ V) as HRc.
  pose proof (indexToCell_ok fuel m Ra Rb Rc x V Hx Ea Eb Ec) as Ecx.
  pose proof (direct_decode_facts (n_basis_ m) Ra Rb Rc x Hnb HRa HRb HRc Hx) as D.
  destruct (direct_decode (n_basis_ m) Rb Rc x) as [[ci cj] ck].
  destruct D as (Hci & Hcj & Hck & _ & Hlaw & Hl).
  destruct (neighbourIndices_members fuel m Ra Rb Rc x s ci cj ck g
              V Hg Hx Hfits Hfuel Ecx) as (nbs0 & g0 & En0 & Hmem).
  rewrite En in En0. injection En0 as <- <-.
  apply Hmem in Hy.
  destruct Hy as (di & dj & dk & ii & jj & kk & l & Hdi & Hdj & Hdk
                  & Ei & Ej & Ek & Hly & ->).
  rewrite (axis_candidate_ok m 0 _ Ra _ Pa Qa) in Ei
    by (try lia; apply (candidate_in_range Ra ci s); lia).
  rewrite (axis_candidate_ok m 1 _ Rb _ Pb Qb) in Ej
    by (try lia; apply (candidate_in_range Rb cj s); lia).
  rewrite (axis_candidate_ok m 2 _ Rc _ Pc Qc) in Ek
    by (try lia; apply (candidate_in_range Rc ck s); lia).
  assert (Ci : axis_cell (periodic_at m 0) Ra (ci + di) = Some ii) by congruence.
  assert (Cj : axis_cell (periodic_at m 1) Rb (cj + dj) = Some jj) by congruence.
  assert (Ck : axis_cell (periodic_at m 2) Rc (ck + dk) = Some kk) by congruence.
  pose proof (axis_cell_bounds _ _ _ _ Ci) as Hii.
  pose proof (axis_cell_bounds _ _ _ _ Cj) as Hjj.
  pose proof (axis_cell_bounds _ _ _ _ Ck) as Hkk.
  destruct (direct_decode_encode (n_basis_ m) Ra Rb Rc ii jj kk l
              Hnb Hii Hjj Hkk Hly) as [Hyr Hdec].
  unfold cell_linear in Hyr, Hdec.
  pose proof (indexToCell_ok fuel m Ra Rb Rc _ V Hyr Ea Eb Ec) as Ecy.
  rewrite Hdec in Ecy.
  destruct (neighbourIndices_members fuel m Ra Rb Rc _ s ii jj kk g
              V Hg Hyr Hfits Hfuel Ecy) as (nbs' & g'' & En' & Hmem').
  exists nbs', g''. split; [exact En'|].
  apply Hmem'.
  exists (- di), (- dj), (- dk), ci, cj, ck, (x mod n_basis_ m).
  rewrite (axis_candidate_ok m 0 _ Ra _ Pa Qa)
    by (try lia; apply (candidate_in_range Ra ii s); lia).
  rewrite (axis_candidate_ok m 1 _ Rb _ Pb Qb)
    by (try lia; apply (candidate_in_range Rb jj s); lia).
  rewrite (axis_candidate_ok m 2 _ Rc _ Pc Qc)
    by (try lia; apply (candidate_in_range Rc kk s); lia).
  rewrite (axis_cell_back _ Ra ci di ii Hci Ci).
  rewrite (axis_cell_back _ Rb cj dj jj Hcj Cj).
  rewrite (axis_cell_back _ Rc ck dk kk Hck Ck).
  unfold cell_linear in Hlaw. repeat split; try lia.
Qed.

Lemma neighbour_relation_symmetric_witness :
  exists nbs' g'', neighbourIndices 4 ring_3 2 1 [0] = Ok (nbs', g'') /\ In 0 nbs'.
Proof.
  apply (neighbour_relation_symmetric 4 ring_3 3 1 1 0 2 1 [0] [2; 0; 1] [1]).
  - valid_instance.
  - reflexivity.
  - cbn. lia.
  - unfold shell_fits, Int.max_int. cbn. lia.
  - unfold enough_fuel. cbn. lia.
  - reflexivity.
  - cbn. tauto.
Defined.

(** X13: a wider shell loses no neighbour.  Every index that
    [neighbourIndices] returns for a shell radius s is returned for every
    larger shell radius too. *)
Theorem wider_shell_keeps_neighbours (fuel : nat) (m : LatticeMap)
        (Ra Rb Rc index s s' y : Z) (g : Buffer) (nbs : list Z) (g' : Buffer) :
  valid_map m Ra Rb Rc -> buffer_ready m g ->
  0 <= index < Ra * Rb * Rc * n_basis_ m ->
  s <= s' ->
  shell_fits (n_basis_ m) Ra Rb Rc s -> enough_fuel Ra Rb Rc s fuel ->
  shell_fits (n_basis_ m) Ra Rb Rc s' -> enough_fuel Ra Rb Rc s' fuel ->
  neighbourIndices fuel m index s g = Ok (nbs, g') -> In y nbs ->
  exists nbs' g'',
    neighbourIndices fuel m index s' g = Ok (nbs', g'') /\ In y nbs'.
Proof.
  intros V Hg Hidx Hss Hfits Hfuel Hfits' Hfuel' En Hy.
  pose proof Hfuel as (Ea & Eb & Ec & _).
  pose proof (indexToCell_ok fuel m Ra Rb Rc index V Hidx Ea Eb Ec) as Ecell.
  destruct (direct_decode (n_basis_ m) Rb Rc index) as [[ci cj] ck].
  destruct (neighbourIndices_members fuel m Ra Rb Rc index s ci cj ck g
              V Hg Hidx Hfits Hfuel Ecell) as (nbs0 & g0 & En0 & Hmem).
  rewrite En in En0. injection En0 as <- <-.
  destruct (neighbourIndices_members fuel m Ra Rb Rc index s' ci cj ck g
              V Hg Hidx Hfits' Hfuel' Ecell) as (nbs' & g'' & En' & Hmem').
  exists nbs', g''. split; [exact En'|].
  apply Hmem'. apply Hmem in Hy.
  destruct Hy as (di & dj & dk & ii & jj & kk & l & Hdi & Hdj & Hdk & Hrest).
  exists di, dj, dk, ii, jj, kk, l. repeat split; try lia; apply Hrest.
Qed.

Lemma wider_shell_keeps_neighbours_witness :
  exists nbs' g'', neighbourIndices 6 open_4x4x4 21 2 [0] = Ok (nbs', g'') /\ In 0 nbs'.
Proof.
  apply (wider_shell_keeps_neighbours 6 open_4x4x4 4 4 4 21 1 2 0 [0]
           [0; 1; 2; 4; 5; 6; 8; 9; 10; 16; 17; 18; 20; 21; 22; 24; 25; 26;
            32; 33; 34; 36; 37; 38; 40; 41; 42] [42]).
  - valid_instance.
  - reflexivity.
  - cbn. lia.
  - lia.
  - unfold shell_fits, Int.max_int. cbn. lia.
  - unfold enough_fuel. cbn. lia.
  - unfold shell_fits, Int.max_int. cbn. lia.
  - unfold enough_fuel. cbn. lia.
  - reflexivity.
  - cbn. tauto.
Defined.

Lemma unpruned_keeps (p : bool) (R c s y : Z) :
  0 < R -> 0 <= c < R -> unpruned p R c s -> c - s <= y <= c + s ->
  exists cc, axis_cell p R y = Some cc.
Proof.
  intros HR Hc [[-> HsR]|[Hlo Hhi]] Hy.
  - rewrite axis_cell_periodic by exact HR.
    destruct (Z.leb_spec (- R) y) as [_|H]; [|lia].
    destruct (Z.ltb_spec y (2 * R)) as [_|H]; [|lia].
    eexists. reflexivity.
  - exists y. apply axis_cell_inside. lia.
Qed.

Lemma axis_emit_full (p : bool) (R c s : Z) (L : nat) (emit : Z -> list Z) :
  0 <= s ->
  (forall y, c - s <= y <= c + s -> exists cc, axis_cell p R y = Some cc) ->
  (forall cc, length (emit cc) = L) ->
  length (flat_map (fun x => match axis_cell p R x with
                             | None => []
                             | Some cc => emit cc
                             end) (shell_range c s))
  = (Z.to_nat (2 * s + 1) * L)%nat.
Proof.
  intros Hs Hkeep Hemit.
  rewrite (flat_map_constant_length (c := L)).
  - unfold shell_range. rewrite zrange_length. reflexivity.
  - intros y Hy. apply shell_range_In in Hy; [|exact Hs].
    destruct (Hkeep y Hy) as (cc & ->). apply Hemit.
Qed.

(** X14: when nothing is pruned the preallocated size is used in full.  If
    on every axis either the axis is periodic and s <= R, or the whole
    shell lies inside the axis, [neighbourIndices] returns exactly
    (2s+1)^3 * basisCount entries. *)
Theorem neighbourIndices_full_volume (fuel : nat) (m : LatticeMap)
        (Ra Rb Rc index s ci cj ck : Z) (g : Buffer) :
  valid_map m Ra Rb Rc -> buffer_ready m g ->
  0 <= index < Ra * Rb * Rc * n_basis_ m ->
  shell_fits (n_basis_ m) Ra Rb Rc s -> enough_fuel Ra Rb Rc s fuel ->
  indexToCell fuel m index = Ok (ci, cj, ck) ->
  unpruned (periodic_at m 0) Ra ci s ->
  unpruned (periodic_at m 1) Rb cj s ->
  unpruned (periodic_at m 2) Rc ck s ->
  exists nbs g',
    neighbourIndices fuel m index s g = Ok (nbs, g')
    /\ Z.of_nat (length nbs) = (2 * s + 1) ^ 3 * n_basis_ m.
Proof.
  intros V Hg Hidx Hfits Hfuel Ecell Ua Ub Uc.
  destruct (neighbourIndices_ok fuel m Ra Rb Rc index s g V Hg Hidx Hfits Hfuel)
    as (g' & En & _).
  destruct Hfits as (Hs & _).
  destruct (decoded_cell fuel m Ra Rb Rc index ci cj ck V Hidx
              (enough_fuel_zero _ _ _ _ _ Hs Hfuel) Ecell) as (D & Hci & Hcj & Hck).
  rewrite D in En. eexists _, g'. split; [exact En|].
  pose proof (valid_basis _ _ _ _ V) as Hnb.
  pose proof (valid_Ra _ _ _ _ V) as HRa.
  pose proof (valid_Rb _ _ _ _ V) as HRb.
  pose proof (valid_Rc _ _ _ _ V) as HRc.
  unfold neighbour_sites.
  rewrite (axis_emit_full _ Ra ci s
             (Z.to_nat (2 * s + 1) * (Z.to_nat (2 * s + 1) * Z.to_nat (n_basis_ m)))).
  - replace ((2 * s + 1) ^ 3) with ((2 * s + 1) * ((2 * s + 1) * (2 * s + 1))) by ring.
    rewrite !Nat2Z.inj_mul, !Z2Nat.id by lia. ring.
  - exact Hs.
  - intros y Hy. apply (unpruned_keeps _ Ra ci s y); assumption.
  - intros ii. apply axis_emit_full; [exact Hs| |].
    + intros y Hy. apply (unpruned_keeps _ Rb cj s y); assumption.
    + intros jj. apply axis_emit_full; [exact Hs| |].
      * intros y Hy. apply (unpruned_keeps _ Rc ck s y); assumption.
      * intros kk. apply cell_sites_length.
Qed.

Lemma neighbourIndices_full_volume_witness :
  exists nbs g',
    neighbourIndices 5 periodic_point 0 1 [0] = Ok (nbs, g')
    /\ Z.of_nat (length nbs) = 27.
Proof.
  apply (neighbourIndices_full_volume 5 periodic_point 1 1 1 0 1 0 0 0 [0]).
  - valid_instance.
  - reflexivity.
  - cbn. lia.
  - unfold shell_fits, Int.max_int. cbn. lia.
  - unfold enough_fuel. cbn. lia.
  - reflexivity.
  - left. split; [reflexivity|lia].
  - left. split; [reflexivity|lia].
  - left. split; [reflexivity|lia].
Defined.

(** X15: a shell as wide as the grid reaches every site.  With
    s >= R - 1 on each of the three axes, on periodic and open axes alike,
    the list that [neighbourIndices] returns contains every index of
    [0, totalSites). *)
Theorem wide_shell_reaches_every_site (fuel : nat) (m : LatticeMap)
        (Ra Rb Rc index s : Z) (g : Buffer) :
  valid_map m Ra Rb Rc -> buffer_ready m g ->
  0 <= index < Ra * Rb * Rc * n_basis_ m ->
  shell_fits (n_basis_ m) Ra Rb Rc s -> enough_fuel Ra Rb Rc s fuel ->
  Ra - 1 <= s -> Rb - 1 <= s -> Rc - 1 <= s ->
  exists nbs g',
    neighbourIndices fuel m index s g = Ok (nbs, g')
    /\ forall y, 0 <= y < Ra * Rb * Rc * n_basis_ m -> In y nbs.
Proof.
  intros V Hg Hidx Hfits Hfuel Wa Wb Wc.
  pose proof Hfits as (Hs & Fa & Fb & Fc & _).
  pose proof Hfuel as (Ea & Eb & Ec & _).
  pose proof (valid_basis _ _ _ _ V) as Hnb.
  pose proof (valid_Ra _ _ _ _ V) as HRa.
  pose proof (valid_Rb _ _ _ _ V) as HRb.
  pose proof (valid_Rc _ _ _ _ V) as HRc.
  destruct (valid_vector_gets m Ra Rb Rc V) as (Pa & Pb & Pc & Qa & Qb & Qc).
  destruct (valid_bounds m Ra Rb Rc V) as (Ba & Bb & Bc & _).
  pose proof (indexToCell_ok fuel m Ra Rb Rc index V Hidx Ea Eb Ec) as Ecell.
  pose proof (direct_decode_facts (n_basis_ m) Ra Rb Rc index Hnb HRa HRb HRc Hidx) as D.
  destruct (direct_decode (n_basis_ m) Rb Rc index) as [[ci cj] ck].
  destruct D as (Hci & Hcj & Hck & _).
  destruct (neighbourIndices_members fuel m Ra Rb Rc index s ci cj ck g
              V Hg Hidx Hfits Hfuel Ecell) as (nbs & g' & En & Hmem).
  exists nbs, g'. split; [exact En|].
  intros y Hy.
  pose proof (direct_decode_facts (n_basis_ m) Ra Rb Rc y Hnb HRa HRb HRc Hy) as Dy.
  destruct (direct_decode (n_basis_ m) Rb Rc y) as [[ti tj] tk].
  destruct Dy as (Hti & Htj & Htk & _ & Hlaw & Hl).
  apply Hmem.
  exists (ti - ci), (tj - cj), (tk - ck), ti, tj, tk, (y mod n_basis_ m).
  replace (ci + (ti - ci)) with ti by ring.
  replace (cj + (tj - cj)) with tj by ring.
  replace (ck + (tk - ck)) with tk by ring.
  rewrite (axis_candidate_ok m 0 _ Ra ti Pa Qa) by (try apply in_range_nonneg; lia).
  rewrite (axis_candidate_ok m 1 _ Rb tj Pb Qb) by (try apply in_range_nonneg; lia).
  rewrite (axis_candidate_ok m 2 _ Rc tk Pc Qc) by (try apply in_range_nonneg; lia).
  rewrite !axis_cell_inside by assumption.
  unfold cell_linear in Hlaw. repeat split; try lia.
Qed.

Lemma wide_shell_reaches_every_site_witness :
  exists nbs g',
    neighbourIndices 6 ring_3 0 2 [0] = Ok (nbs, g')
    /\ forall y, 0 <= y < 3 -> In y nbs.
Proof.
  apply (wide_shell_reaches_every_site 6 ring_3 3 1 1 0 2 [0]); try lia.
  - valid_instance.
  - reflexivity.
  - cbn. lia.
  - unfold shell_fits, Int.max_int. cbn. lia.
  - unfold enough_fuel. cbn. lia.
Defined.

(** *** The superset of neighbours, continued *)

Lemma neighbour_sites_own (nb Ra Rb Rc : Z) (pa pb pc : bool) (s index : Z) :
  0 < nb -> 0 < Ra -> 0 < Rb -> 0 < Rc -> 0 <= s ->
  0 <= index < Ra * Rb * Rc * nb ->
  In index (neighbour_sites nb Ra Rb Rc pa pb pc s (direct_decode nb Rb Rc index)).
Proof.
  intros Hnb HRa HRb HRc Hs Hidx.
  pose proof (direct_decode_facts nb Ra Rb Rc index Hnb HRa HRb HRc Hidx) as D.
  destruct (direct_decode nb Rb Rc index) as [[ci cj] ck].
  destruct D as (Hi & Hj & Hk & _ & Hlaw & Hl).
  apply neighbour_sites_In. exists ci, cj, ck, ci, cj, ck.
  rewrite !shell_range_In by exact Hs.
  rewrite !axis_cell_inside by assumption.
  repeat split; try lia.
  apply cell_sites_In. exists (index mod nb). split; [exact Hl|exact Hlaw].
Qed.

Lemma neighbour_sites_range (nb Ra Rb Rc : Z) (pa pb pc : bool) (s : Z)
      (cell : Z * Z * Z) (x : Z) :
  0 < nb ->
  In x (neighbour_sites nb Ra Rb Rc pa pb pc s cell) ->
  0 <= x < Ra * Rb * Rc * nb.
Proof.
  intros Hnb Hx. destruct cell as [[ci cj] ck].
  apply neighbour_sites_In in Hx.
  destruct Hx as (yi & yj & yk & ii & jj & kk & _ & _ & _ & Ei & Ej & Ek & Hx).
  apply cell_sites_In in Hx. destruct Hx as (l & Hl & ->).
  apply (direct_decode_encode nb Ra Rb Rc ii jj kk l Hnb
           (axis_cell_bounds _ _ _ _ Ei) (axis_cell_bounds _ _ _ _ Ej)
           (axis_cell_bounds _ _ _ _ Ek) Hl).
Qed.

Lemma strict_sorted_length (l : list Z) :
  forall lo hi, lo <= hi -> StronglySorted Z.lt l ->
                (forall x, In x l -> lo <= x < hi) ->
                Z.of_nat (length l) <= hi - lo.
Proof.
  induction l as [|a t IH]; intros lo hi Hle Hs Hall; cbn [length]; [lia|].
  inversion Hs as [|? ? Hs' Ha]; subst. rewrite Forall_forall in Ha.
  assert (Hlo : lo <= a < hi) by (apply Hall; left; reflexivity).
  specialize (IH (a + 1) hi ltac:(lia) Hs').
  assert (Z.of_nat (length t) <= hi - (a + 1)).
  { apply IH. intros x Hx. specialize (Ha x Hx).
    specialize (Hall x (or_intror Hx)). lia. }
  lia.
Qed.

(** X16: the superset contains its input and stays inside the lattice.
    Every input index appears in the result of
    [supersetNeighbourIndices]; every element of the result is an index of
    [0, totalSites); and the result never has more than totalSites
    entries. *)
Theorem superset_contains_input (fuel : nat) (m : LatticeMap)
        (Ra Rb Rc : Z) (indices : list Z) (g : Buffer) :
  valid_map m Ra Rb Rc -> buffer_ready m g ->
  shell_fits (n_basis_ m) Ra Rb Rc default_shells ->
  enough_fuel Ra Rb Rc default_shells fuel ->
  (forall index, In index indices -> 0 <= index < Ra * Rb * Rc * n_basis_ m) ->
  exists sup g',
    supersetNeighbourIndices fuel m indices g = Ok (sup, g')
    /\ (forall index, In index indices -> In index sup)
    /\ (forall x, In x sup -> 0 <= x < Ra * Rb * Rc * n_basis_ m)
    /\ Z.of_nat (length sup) <= Ra * Rb * Rc * n_basis_ m.
Proof.
  intros V Hg Hfits Hfuel Hvalid.
  destruct (supersetNeighbourIndices_ok fuel m Ra Rb Rc indices g
              V Hg Hfits Hfuel Hvalid) as (g' & E & _).
  pose proof (valid_basis _ _ _ _ V) as Hnb.
  pose proof (valid_Ra _ _ _ _ V) as HRa.
  pose proof (valid_Rb _ _ _ _ V) as HRb.
  pose proof (valid_Rc _ _ _ _ V) as HRc.
  destruct Hfits as (Hs & _).
  eexists _, g'. split; [exact E|].
  assert (Hrange : forall x,
             In x (unique_run (std_sort
                     (flat_map (fun index =>
                        neighbour_sites (n_basis_ m) Ra Rb Rc
                          (periodic_at m 0) (periodic_at m 1) (periodic_at m 2)
                          default_shells
                          (direct_decode (n_basis_ m) Rb Rc index)) indices))) ->
             0 <= x < Ra * Rb * Rc * n_basis_ m).
  { intros x Hx. rewrite unique_run_In, std_sort_In, in_flat_map in Hx.
    destruct Hx as (index & _ & Hx).
    exact (neighbour_sites_range _ _ _ _ _ _ _ _ _ _ Hnb Hx). }
  split; [|split].
  - intros index Hin. rewrite unique_run_In, std_sort_In, in_flat_map.
    exists index. split; [exact Hin|].
    apply neighbour_sites_own; try assumption. apply Hvalid, Hin.
  - exact Hrange.
  - rewrite <- (Z.sub_0_r (Ra * Rb * Rc * n_basis_ m)).
    apply strict_sorted_length.
    + repeat apply Z.mul_nonneg_nonneg; lia.
    + apply unique_run_strict, std_sort_sorted.
    + exact Hrange.
Qed.

Lemma superset_contains_input_witness :
  exists sup g',
    supersetNeighbourIndices 5 open_4x4x4 [63; 0] [0] = Ok (sup, g')
    /\ (forall index, In index [63; 0] -> In index sup).
Proof.
  destruct (superset_contains_input 5 open_4x4x4 4 4 4 [63; 0] [0])
    as (sup & g' & E & H & _).
  - valid_instance.
  - reflexivity.
  - unfold shell_fits, default_shells, Int.max_int. cbn. lia.
  - unfold enough_fuel, default_shells. cbn. lia.
  - cbn. intros index [<-|[<-|[]]]; lia.
  - exists sup, g'. split; assumption.
Defined.

(** X17: supersets compose.  The result for two input sequences put one
    after the other has exactly the elements of the results for the two
    sequences taken separately. *)
Theorem superset_of_concatenation (fuel : nat) (m : LatticeMap)
        (Ra Rb Rc : Z) (xs ys : list Z) (g : Buffer) :
  valid_map m Ra Rb Rc -> buffer_ready m g ->
  shell_fits (n_basis_ m) Ra Rb Rc default_shells ->
  enough_fuel Ra Rb Rc default_shells fuel ->
  (forall index, In index xs -> 0 <= index < Ra * Rb * Rc * n_basis_ m) ->
  (forall index, In index ys -> 0 <= index < Ra * Rb * Rc * n_basis_ m) ->
  exists sx sy sxy gx gy gxy,
    supersetNeighbourIndices fuel m xs g = Ok (sx, gx)
    /\ supersetNeighbourIndices fuel m ys g = Ok (sy, gy)
    /\ supersetNeighbourIndices fuel m (xs ++ ys) g = Ok (sxy, gxy)
    /\ forall z, In z sxy <-> In z sx \/ In z sy.
Proof.
  intros V Hg Hfits Hfuel Hxs Hys.
  destruct (supersetNeighbourIndices_ok fuel m Ra Rb Rc xs g V Hg Hfits Hfuel Hxs)
    as (gx & Ex & _).
  destruct (supersetNeighbourIndices_ok fuel m Ra Rb Rc ys g V Hg Hfits Hfuel Hys)
    as (gy & Ey & _).
  destruct (supersetNeighbourIndices_ok fuel m Ra Rb Rc (xs ++ ys) g V Hg Hfits Hfuel)
    as (gxy & Exy & _).
  { intros index Hin. apply in_app_or in Hin. destruct Hin; auto. }
  eexists _, _, _, gx, gy, gxy.
  split; [exact Ex|]. split; [exact Ey|]. split; [exact Exy|].
  intros z. rewrite !unique_run_In, !std_sort_In, flat_map_app, in_app_iff.
  reflexivity.
Qed.

Lemma superset_of_concatenation_witness :
  exists sx sy sxy gx gy gxy,
    supersetNeighbourIndices 5 ring_3 [0] [0] = Ok (sx, gx)
    /\ supersetNeighbourIndices 5 ring_3 [2] [0] = Ok (sy, gy)
    /\ supersetNeighbourIndices 5 ring_3 ([0] ++ [2]) [0] = Ok (sxy, gxy)
    /\ forall z, In z sxy <-> In z sx \/ In z sy.
Proof.
  apply (superset_of_concatenation 5 ring_3 3 1 1 [0] [2] [0]).
  - valid_instance.
  - reflexivity.
  - unfold shell_fits, default_shells, Int.max_int. cbn. lia.
  - unfold enough_fuel, default_shells. cbn. lia.
  - cbn. intros index [<-|[]]; lia.
  - cbn. intros index [<-|[]]; lia.
Defined.

(** *** Neighbour lists without repetition *)

Lemma NoDup_flat_map_disjoint {A : Type} (f : A -> list Z) (xs : list A) :
  NoDup xs ->
  (forall x, In x xs -> NoDup (f x)) ->
  (forall x x' z, In x xs -> In x' xs -> In z (f x) -> In z (f x') -> x = x') ->
  NoDup (flat_map f xs).
Proof.
  induction 1 as [|a t Ha Ht IH]; intros Hf Hdis; cbn [flat_map]; [constructor|].
  apply NoDup_app.
  - apply Hf. left. reflexivity.
  - apply IH.
    + intros x Hx. apply Hf. right. exact Hx.
    + intros x x' z Hx Hx'. apply Hdis; right; assumption.
  - intros z Hz Hz'. apply in_flat_map in Hz'. destruct Hz' as (x & Hx & Hzx).
    apply Ha. rewrite (Hdis a x z); auto. left; reflexivity. right; exact Hx.
Qed.

Lemma shell_range_NoDup (c s : Z) : NoDup (shell_range c s).
Proof.
  unfold shell_range. apply strict_sorted_NoDup.
  rewrite <- (map_id (zrange (c - s) (Z.to_nat (2 * s + 1)))).
  rewrite (map_ext (fun l => l) (fun l => 0 + l)) by (intros; lia).
  apply zrange_map_increasing.
Qed.

(** Two candidates of a shell that land on the same coordinate are the same
    candidate, on an open axis and on a periodic axis wider than the
    shell. *)
Lemma axis_cell_injective (p : bool) (R c s y y' cc : Z) :
  p = false \/ 2 * s + 1 <= R ->
  c - s <= y <= c + s -> c - s <= y' <= c + s ->
  axis_cell p R y = Some cc -> axis_cell p R y' = Some cc -> y = y'.
Proof.
  intros Hp Hy Hy' E E'. unfold axis_cell in E, E'.
  destruct p.
  - destruct Hp as [Hp|Hp]; [discriminate|].
    destruct (Z.ltb_spec y 0); destruct (Z.geb_spec y R);
      destruct (Z.ltb_spec y' 0); destruct (Z.geb_spec y' R);
      match type of E with
      | (if ?a && ?b then _ else _) = _ => destruct (a && b); [|discriminate]
      end;
      match type of E' with
      | (if ?a && ?b then _ else _) = _ => destruct (a && b); [|discriminate]
      end;
      injection E as E; injection E' as E'; lia.
  - match type of E with
    | (if ?a && ?b then _ else _) = _ => destruct (a && b); [|discriminate]
    end.
    match type of E' with
    | (if ?a && ?b then _ else _) = _ => destruct (a && b); [|discriminate]
    end.
    congruence.
Qed.

Lemma cell_sites_same_cell (nb Rb Rc ii jj kk ii' jj' kk' z : Z) :
  0 <= jj < Rb -> 0 <= kk < Rc -> 0 <= jj' < Rb -> 0 <= kk' < Rc ->
  In z (cell_sites nb Rb Rc ii jj kk) -> In z (cell_sites nb Rb Rc ii' jj' kk') ->
  ii = ii' /\ jj = jj' /\ kk = kk'.
Proof.
  intros Hj Hk Hj' Hk' Hz Hz'.
  apply cell_sites_In in Hz. destruct Hz as (l & Hl & ->).
  apply cell_sites_In in Hz'. destruct Hz' as (l' & Hl' & E).
  destruct (mapping_law_injective nb Rb Rc ii jj kk l ii' jj' kk' l'
              Hj Hk Hl Hj' Hk' Hl' E) as (-> & -> & -> & _).
  repeat split.
Qed.

Lemma axis_emit_members (p : bool) (R : Z) (emit : Z -> list Z) (ys : list Z)
      (z : Z) :
  In z (flat_map (fun y => match axis_cell p R y with
                           | None => []
                           | Some cc => emit cc
                           end) ys) ->
  exists cc, 0 <= cc < R /\ In z (emit cc).
Proof.
  intros Hz. apply in_flat_map in Hz. destruct Hz as (y & _ & Hz).
  destruct (axis_cell p R y) as [cc|] eqn:E; [|contradiction].
  exists cc. split; [exact (axis_cell_bounds _ _ _ _ E)|exact Hz].
Qed.

(** One level of the enumeration has no repetition when the levels below
    have none and an emitted index determines the coordinate of the level. *)
Lemma axis_emit_NoDup (p : bool) (R c s : Z) (emit : Z -> list Z) :
  p = false \/ 2 * s + 1 <= R -> 0 <= s ->
  (forall cc, NoDup (emit cc)) ->
  (forall cc cc' z, 0 <= cc < R -> 0 <= cc' < R ->
                    In z (emit cc) -> In z (emit cc') -> cc = cc') ->
  NoDup (flat_map (fun y => match axis_cell p R y with
                            | None => []
                            | Some cc => emit cc
                            end) (shell_range c s)).
Proof.
  intros Hp Hs Hnd Hsep. apply NoDup_flat_map_disjoint.
  - apply shell_range_NoDup.
  - intros y _. destruct (axis_cell p R y); [apply Hnd|constructor].
  - intros y y' z Hy Hy' Hz Hz'.
    apply shell_range_In in Hy; [|exact Hs].
    apply shell_range_In in Hy'; [|exact Hs].
    destruct (axis_cell p R y) as [cc|] eqn:E; [|contradiction].
    destruct (axis_cell p R y') as [cc'|] eqn:E'; [|contradiction].
    assert (cc = cc').
    { apply (Hsep cc cc' z); try assumption.
      - exact (axis_cell_bounds _ _ _ _ E).
      - exact (axis_cell_bounds _ _ _ _ E'). }
    subst cc'. exact (axis_cell_injective p R c s y y' cc Hp Hy Hy' E E').
Qed.

(** X18: a neighbour list has no repeated index when no periodic axis is
    narrower than the shell.  If every axis is open or has 2s+1 <= R, the
    list that [neighbourIndices] returns lists every neighbour once. *)
Theorem neighbourIndices_no_repetition (fuel : nat) (m : LatticeMap)
        (Ra Rb Rc index s : Z) (g : Buffer) :
  valid_map m Ra Rb Rc -> buffer_ready m g ->
  0 <= index < Ra * Rb * Rc * n_basis_ m ->
  shell_fits (n_basis_ m) Ra Rb Rc s -> enough_fuel Ra Rb Rc s fuel ->
  periodic_at m 0 = false \/ 2 * s + 1 <= Ra ->
  periodic_at m 1 = false \/ 2 * s + 1 <= Rb ->
  periodic_at m 2 = false \/ 2 * s + 1 <= Rc ->
  exists nbs g', neighbourIndices fuel m index s g = Ok (nbs, g') /\ NoDup nbs.
Proof.
  intros V Hg Hidx Hfits Hfuel Wa Wb Wc.
  destruct (neighbourIndices_ok fuel m Ra Rb Rc index s g V Hg Hidx Hfits Hfuel)
    as (g' & En & _).
  destruct Hfits as (Hs & _).
  eexists _, g'. split; [exact En|].
  destruct (direct_decode (n_basis_ m) Rb Rc index) as [[ci cj] ck].
  unfold neighbour_sites.
  apply axis_emit_NoDup; try assumption.
  - intros ii. apply axis_emit_NoDup; try assumption.
    + intros jj. apply axis_emit_NoDup; try assumption.
      * intros kk. apply strict_sorted_NoDup, cell_sites_increasing.
      * intros kk kk' z Hkk Hkk' Hz Hz'.
        apply cell_sites_In in Hz. destruct Hz as (l & Hl & ->).
        apply cell_sites_In in Hz'. destruct Hz' as (l' & Hl' & E).
        unfold cell_linear in E.
        apply radix_unique in E; [|assumption|assumption].
        destruct E as [E _].
        apply radix_unique in E; [|assumption|assumption].
        apply E.
    + intros jj jj' z Hjj Hjj' Hz Hz'.
      apply axis_emit_members in Hz. destruct Hz as (kk & Hkk & Hz).
      apply axis_emit_members in Hz'. destruct Hz' as (kk' & Hkk' & Hz').
      apply (cell_sites_same_cell _ _ _ _ _ _ _ _ _ z Hjj Hkk Hjj' Hkk' Hz Hz').
  - intros ii ii' z Hii Hii' Hz Hz'.
    apply axis_emit_members in Hz. destruct Hz as (jj & Hjj & Hz).
    apply axis_emit_members in Hz. destruct Hz as (kk & Hkk & Hz).
    apply axis_emit_members in Hz'. destruct Hz' as (jj' & Hjj' & Hz').
    apply axis_emit_members in Hz'. destruct Hz' as (kk' & Hkk' & Hz').
    apply (cell_sites_same_cell _ _ _ _ _ _ _ _ _ z Hjj Hkk Hjj' Hkk' Hz Hz').
Qed.

Lemma neighbourIndices_no_repetition_witness :
  exists nbs g', neighbourIndices 4 ring_3 0 1 [0] = Ok (nbs, g') /\ NoDup nbs.
Proof.
  apply (neighbourIndices_no_repetition 4 ring_3 3 1 1 0 1 [0]).
  - valid_instance.
  - reflexivity.
  - cbn. lia.
  - unfold shell_fits, Int.max_int. cbn. lia.
  - unfold enough_fuel. cbn. lia.
  - right. lia.
  - left. reflexivity.
  - left. reflexivity.
Defined.

(** *** From construction to query *)

(** X19: construction sets up everything a query needs.  For a positive
    basis count, three positive repetition counts and a number of sites
    within int, the constructor succeeds whatever the shared vector held
    before, and a [neighbourIndices] call on the constructed map returns a
    list that contains the queried index and leaves the shared vector ready
    for the next query. *)
Theorem construct_then_query (fuel : nat) (n_basis Ra Rb Rc : Z) (pa pb pc : bool)
        (index s : Z) (g0 : Buffer) :
  0 < n_basis -> 0 < Ra -> 0 < Rb -> 0 < Rc ->
  Ra * Rb * Rc * n_basis <= Int.max_int ->
  0 <= index < Ra * Rb * Rc * n_basis ->
  shell_fits n_basis Ra Rb Rc s -> enough_fuel Ra Rb Rc s fuel ->
  exists m g nbs g',
    LatticeMap_ctor n_basis [Ra; Rb; Rc] [pa; pb; pc] g0 = Ok (m, g)
    /\ valid_map m Ra Rb Rc /\ buffer_ready m g
    /\ neighbourIndices fuel m index s g = Ok (nbs, g')
    /\ In index nbs /\ buffer_ready m g'.
Proof.
  intros Hnb HRa HRb HRc Hfit Hidx Hfits Hfuel.
  set (m := {| n_basis_ := n_basis; repetitions_ := [Ra; Rb; Rc];
               periodic_ := [pa; pb; pc] |}).
  assert (V : valid_map m Ra Rb Rc) by (constructor; cbn; auto).
  unfold LatticeMap_ctor, vector_resize.
  destruct (Z.ltb_spec n_basis 0) as [H|_]; [lia|]. cbn [bind].
  set (g := firstn (Z.to_nat n_basis) g0 ++ repeat 0 (Z.to_nat n_basis - length g0)).
  assert (Hg : buffer_ready m g).
  { unfold buffer_ready, g. cbn [n_basis_ m].
    rewrite length_app, length_firstn, repeat_length. lia. }
  destruct (neighbourIndices_ok fuel m Ra Rb Rc index s g V Hg Hidx Hfits Hfuel)
    as (g' & En & Hg').
  fold m. eexists m, g, _, g'.
  split; [reflexivity|]. split; [exact V|]. split; [exact Hg|].
  split; [exact En|]. split; [|exact Hg'].
  destruct Hfits as (Hs & _).
  apply neighbour_sites_own; assumption.
Qed.

Lemma construct_then_query_witness :
  exists m g nbs g',
    LatticeMap_ctor 2 [2; 3; 4] [false; true; false] [9; 9; 9] = Ok (m, g)
    /\ neighbourIndices 5 m 47 1 g = Ok (nbs, g') /\ In 47 nbs.
Proof.
  destruct (construct_then_query 5 2 2 3 4 false true false 47 1 [9; 9; 9])
    as (m & g & nbs & g' & E & _ & _ & En & Hin & _); try lia.
  - unfold Int.max_int. lia.
  - unfold shell_fits, Int.max_int. cbn. lia.
  - unfold enough_fuel. cbn. lia.
  - exists m, g, nbs, g'. repeat split; assumption.
Defined.
